(** * TestbenchEnv: the hardware-testbench adapter of openmodelica_microgrid_gym

    A shallow embedding of
    [openmodelica_microgrid_gym/env/physical_testbench.py]
    (class [TestbenchEnv]) and the properties of its telemetry decoder,
    reward function and episode stepper.

    Modelling conventions.
    - A Python/numpy [float] is an [npfloat]: a real number or one of the
      IEEE special values [+inf], [-inf], [nan].  Arithmetic on finite
      values is exact real arithmetic; rounding, overflow to infinity and
      the sign of zero are not modelled (a zero divisor counts as [+0.0]).
    - What rounding does to the reward is checked on [rew_fun64], the
      same expression over the kernel's binary64 numbers: rewards that
      differ over the reals can round to the same number.
    - A Python [int] is a [Z].
    - [bytes] and [str] are both [string]s of 8-bit characters; a [str] is
      held in its UTF-8 encoding.
    - Methods run in a state-and-exception monad over the object and the
      standard output: a raised exception keeps every assignment made
      before it, as in Python. *)

From Stdlib Require Import PrimFloat.
From Stdlib Require Import Reals Lra Lia ZArith List String Ascii Bool.
Import ListNotations.

(* ================================================================== *)
(** ** numpy floating point: extended reals *)
(* ================================================================== *)

Module NP.

Local Open Scope R_scope.

Inductive npfloat : Type :=
| Fin (r : R)
| PInf
| NInf
| NaN.

Definition is_finite (x : npfloat) : Prop :=
  match x with Fin _ => True | _ => False end.

(** Sign of a real, as a three-way comparison with zero. *)
Definition Rsign (r : R) : comparison :=
  match total_order_T r 0 with
  | inleft (left _) => Lt
  | inleft (right _) => Eq
  | inright _ => Gt
  end.

(** [int -> float] conversion of a Python integer used in a numpy
    expression. *)
Definition of_int (n : Z) : npfloat := Fin (IZR n).

(** unary [-x] *)
Definition neg (x : npfloat) : npfloat :=
  match x with
  | Fin r => Fin (- r)
  | PInf => NInf
  | NInf => PInf
  | NaN => NaN
  end.

(** [np.abs] *)
Definition abs (x : npfloat) : npfloat :=
  match x with
  | Fin r => Fin (Rabs r)
  | PInf | NInf => PInf
  | NaN => NaN
  end.

(** [x + y] *)
Definition add (x y : npfloat) : npfloat :=
  match x, y with
  | NaN, _ | _, NaN => NaN
  | Fin a, Fin b => Fin (a + b)
  | PInf, NInf | NInf, PInf => NaN
  | PInf, _ | _, PInf => PInf
  | NInf, _ | _, NInf => NInf
  end.

(** [x - y] *)
Definition sub (x y : npfloat) : npfloat := add x (neg y).

(** An infinity of the sign [s]; [inf * 0] is [nan]. *)
Definition inf_of_sign (s : comparison) : npfloat :=
  match s with Gt => PInf | Lt => NInf | Eq => NaN end.

Definition sign (x : npfloat) : option comparison :=
  match x with
  | Fin r => Some (Rsign r)
  | PInf => Some Gt
  | NInf => Some Lt
  | NaN => None
  end.

Definition sign_mul (s t : comparison) : comparison :=
  match s, t with
  | Eq, _ | _, Eq => Eq
  | Gt, Gt | Lt, Lt => Gt
  | _, _ => Lt
  end.

(** [x * y] *)
Definition mul (x y : npfloat) : npfloat :=
  match x, y with
  | Fin a, Fin b => Fin (a * b)
  | _, _ =>
      match sign x, sign y with
      | Some s, Some t => inf_of_sign (sign_mul s t)
      | _, _ => NaN
      end
  end.

(** [x / y] on numpy values: division by zero does not raise, it yields
    an infinity ([nan] for [0 / 0]). *)
Definition div (x y : npfloat) : npfloat :=
  match x, y with
  | NaN, _ | _, NaN => NaN
  | Fin a, Fin b =>
      match Rsign b with
      | Eq => inf_of_sign (Rsign a)
      | _ => Fin (a / b)
      end
  | Fin _, _ => Fin 0
  | _, Fin b =>
      match Rsign b with
      | Lt => neg x
      | _ => x
      end
  | _, _ => NaN
  end.

(** [np.maximum(x, y)]: propagates [nan]. *)
Definition maximum (x y : npfloat) : npfloat :=
  match x, y with
  | NaN, _ | _, NaN => NaN
  | PInf, _ | _, PInf => PInf
  | NInf, z | z, NInf => z
  | Fin a, Fin b => Fin (Rmax a b)
  end.

(** [x ** 0.5] on an array, which numpy evaluates as [np.sqrt(x)]: a
    negative operand, [-inf] included, gives [nan]. *)
Definition pow_half (x : npfloat) : npfloat :=
  match x with
  | Fin r => match Rsign r with Lt => NaN | _ => Fin (sqrt r) end
  | PInf => PInf
  | NInf | NaN => NaN
  end.

(** [np.log] *)
Definition log (x : npfloat) : npfloat :=
  match x with
  | Fin r =>
      match Rsign r with
      | Gt => Fin (ln r)
      | Eq => NInf
      | Lt => NaN
      end
  | PInf => PInf
  | NInf | NaN => NaN
  end.

(** A one-dimensional array of three elements. *)
Record vec3 : Type := V3 { v_a : npfloat; v_b : npfloat; v_c : npfloat }.

Definition vmap (f : npfloat -> npfloat) (v : vec3) : vec3 :=
  V3 (f (v_a v)) (f (v_b v)) (f (v_c v)).

Definition vmap2 (f : npfloat -> npfloat -> npfloat) (u v : vec3) : vec3 :=
  V3 (f (v_a u) (v_a v)) (f (v_b u) (v_b v)) (f (v_c u) (v_c v)).

(** [np.sum(v, axis=0)] *)
Definition vsum (v : vec3) : npfloat := add (add (v_a v) (v_b v)) (v_c v).

End NP.
Import NP.

(* ================================================================== *)
(** ** Python values: bytes, str, list indexing *)
(* ================================================================== *)

Local Open Scope string_scope.
Local Open Scope list_scope.

Definition LF : ascii := "010"%char.
Definition CR : ascii := "013"%char.
Definition COMMA : ascii := ","%char.

(** [bytes.splitlines()]: lines end at [\n], [\r] or [\r\n]; the
    terminators are dropped and a final unterminated line is kept only if
    it is not empty.  [cur] is the line read so far. *)
Fixpoint splitlines_from (cur : string) (s : string) : list string :=
  match s with
  | EmptyString =>
      match cur with EmptyString => [] | _ => [cur] end
  | String c rest =>
      if Ascii.eqb c LF then cur :: splitlines_from EmptyString rest
      else if Ascii.eqb c CR then
        match rest with
        | String c' rest' =>
            if Ascii.eqb c' LF then cur :: splitlines_from EmptyString rest'
            else cur :: splitlines_from EmptyString rest
        | EmptyString => [cur]
        end
      else splitlines_from (cur ++ String c EmptyString) rest
  end.

Definition splitlines (s : string) : list string :=
  splitlines_from EmptyString s.

(** Well-formed UTF-8, as the strict decoder of [bytes.decode("utf-8")]
    accepts it: shortest forms only, no surrogates, at most U+10FFFF. *)
Definition byte_in (lo hi : N) (c : ascii) : bool :=
  (N.leb lo (N_of_ascii c) && N.leb (N_of_ascii c) hi)%bool.

Definition is_cont : ascii -> bool := byte_in 128 191.

Fixpoint utf8_valid (s : string) : bool :=
  match s with
  | EmptyString => true
  | String c0 s1 =>
      if byte_in 0 127 c0 then utf8_valid s1
      else if byte_in 194 223 c0 then
        match s1 with
        | String c1 s2 => is_cont c1 && utf8_valid s2
        | _ => false
        end
      else if byte_in 224 239 c0 then
        match s1 with
        | String c1 (String c2 s3) =>
            (if byte_in 224 224 c0 then byte_in 160 191 c1
             else if byte_in 237 237 c0 then byte_in 128 159 c1
             else is_cont c1)
            && is_cont c2 && utf8_valid s3
        | _ => false
        end
      else if byte_in 240 244 c0 then
        match s1 with
        | String c1 (String c2 (String c3 s4)) =>
            (if byte_in 240 240 c0 then byte_in 144 191 c1
             else if byte_in 244 244 c0 then byte_in 128 143 c1
             else is_cont c1)
            && is_cont c2 && is_cont c3 && utf8_valid s4
        | _ => false
        end
      else false
  end%bool.

(** [line.decode("utf-8")]: the [str] keeps its UTF-8 bytes; [None] is
    [UnicodeDecodeError]. *)
Definition decode_utf8 (line : string) : option string :=
  if utf8_valid line then Some line else None.

(** [s.split(",")]: never empty; [n] commas give [n + 1] tokens.  The byte
    [","] never occurs inside a multi-byte UTF-8 sequence, so splitting
    the encoded text is splitting the text. *)
Fixpoint split_comma (s : string) : list string :=
  match s with
  | EmptyString => [EmptyString]
  | String c rest =>
      if Ascii.eqb c COMMA then EmptyString :: split_comma rest
      else
        match split_comma rest with
        | t :: ts => String c t :: ts
        | [] => [String c EmptyString]
        end
  end.

(** [a[i]] for a sequence or the first axis of an array: a negative index
    counts from the end; [None] is [IndexError]. *)
Definition getitem {A : Type} (a : list A) (i : Z) : option A :=
  let n := Z.of_nat (List.length a) in
  if (0 <=? i)%Z then nth_error a (Z.to_nat i)
  else if (- n <=? i)%Z then nth_error a (Z.to_nat (n + i))
  else None.

(* ================================================================== *)
(** ** State and exceptions *)
(* ================================================================== *)

Inductive exn : Type :=
| UnicodeDecodeError
| ValueError
| IndexError
| SSHException.

Inductive outcome (A : Type) : Type :=
| Ok (a : A)
| Raise (e : exn).
Arguments Ok {A} a.
Arguments Raise {A} e.

(** A computation over a state [St]: the state after it, and its value or
    the exception it raised. *)
Definition M (St A : Type) : Type := St -> St * outcome A.

Definition ret {St A} (a : A) : M St A := fun s => (s, Ok a).

Definition raise {St A} (e : exn) : M St A := fun s => (s, Raise e).

Definition bind {St A B} (c : M St A) (k : A -> M St B) : M St B :=
  fun s =>
    match c s with
    | (s', Ok a) => k a s'
    | (s', Raise e) => (s', Raise e)
    end.

Definition get {St} : M St St := fun s => (s, Ok s).

Definition modify {St} (f : St -> St) : M St unit := fun s => (f s, Ok tt).

(** A builtin that either returns or raises [e]. *)
Definition try_opt {St A} (e : exn) (o : option A) : M St A :=
  match o with Some a => ret a | None => raise e end.

Notation "x <- c ;; k" := (bind c (fun x => k))
  (at level 61, c at next level, right associativity).
Notation "c ;;; k" := (bind c (fun _ => k))
  (at level 61, right associativity).

(** Standard output: the argument of every [print] call, oldest first. *)
Definition stdout_t : Type := list (list string).

Definition print (tokens : list string) : M stdout_t unit :=
  modify (fun out => out ++ [tokens]).

(** A two-dimensional array, by rows.  [np.array(list())] is [[]]. *)
Definition ndarray : Type := list (list npfloat).

(* ================================================================== *)
(** ** The telemetry decoder *)
(* ================================================================== *)

Section Decoder.

(** The builtin [float(str)]; [None] is [ValueError]. *)
Variable py_float : string -> option npfloat.

(** [[float(i) for i in temp]] *)
Fixpoint floats_of (temp : list string) : M stdout_t (list npfloat) :=
  match temp with
  | [] => ret []
  | i :: temp' =>
      x <- try_opt ValueError (py_float i) ;;
      xs <- floats_of temp' ;;
      ret (x :: xs)
  end.

(** The loop of [__decode_result] over the remaining lines, [result]
    being the rows appended so far. *)
Fixpoint decode_lines (lines : list string) (result : ndarray)
  : M stdout_t ndarray :=
  match lines with
  | [] => ret result
  | line :: lines' =>
      s <- try_opt UnicodeDecodeError (decode_utf8 line) ;;
      let temp := split_comma s in
      if (List.length temp =? 11)%nat then
        floats <- floats_of (removelast temp) ;;
        decode_lines lines' (result ++ [floats])
      else if negb (List.length temp =? 1)%nat then
        print temp ;;;
        decode_lines lines' result
      else
        decode_lines lines' result
  end.

(** [TestbenchEnv.__decode_result(ssh_result)], [raw] being the bytes of
    [ssh_result.read()]. *)
Definition decode_result (raw : string) : M stdout_t ndarray :=
  decode_lines (splitlines raw) [].

End Decoder.

(* ================================================================== *)
(** ** The environment object *)
(* ================================================================== *)

(** The attributes of a [TestbenchEnv], in the order [__init__] assigns
    them.  Of [self.ssh] only whether the client is connected is kept. *)
Record TestbenchEnv : Type := mkEnv {
  ssh_connected : bool;
  host : string;
  username : string;
  password : string;
  DT : npfloat;
  executable_script_name : string;
  max_episode_steps : Z;
  kP : npfloat;
  kI : npfloat;
  i_ref : npfloat;
  f_nom : npfloat;
  data : ndarray;
  current_step : Z;
  done : bool;
  i_limit : npfloat;
  i_nominal : npfloat
}.

Definition set_ssh_connected (b : bool) (e : TestbenchEnv) : TestbenchEnv :=
  mkEnv b (host e) (username e) (password e) (DT e)
        (executable_script_name e) (max_episode_steps e) (kP e) (kI e)
        (i_ref e) (f_nom e) (data e) (current_step e) (done e) (i_limit e)
        (i_nominal e).

Definition set_kP (x : npfloat) (e : TestbenchEnv) : TestbenchEnv :=
  mkEnv (ssh_connected e) (host e) (username e) (password e) (DT e)
        (executable_script_name e) (max_episode_steps e) x (kI e)
        (i_ref e) (f_nom e) (data e) (current_step e) (done e) (i_limit e)
        (i_nominal e).

Definition set_kI (x : npfloat) (e : TestbenchEnv) : TestbenchEnv :=
  mkEnv (ssh_connected e) (host e) (username e) (password e) (DT e)
        (executable_script_name e) (max_episode_steps e) (kP e) x
        (i_ref e) (f_nom e) (data e) (current_step e) (done e) (i_limit e)
        (i_nominal e).

Definition set_data (d : ndarray) (e : TestbenchEnv) : TestbenchEnv :=
  mkEnv (ssh_connected e) (host e) (username e) (password e) (DT e)
        (executable_script_name e) (max_episode_steps e) (kP e) (kI e)
        (i_ref e) (f_nom e) d (current_step e) (done e) (i_limit e)
        (i_nominal e).

Definition set_current_step (n : Z) (e : TestbenchEnv) : TestbenchEnv :=
  mkEnv (ssh_connected e) (host e) (username e) (password e) (DT e)
        (executable_script_name e) (max_episode_steps e) (kP e) (kI e)
        (i_ref e) (f_nom e) (data e) n (done e) (i_limit e)
        (i_nominal e).

Definition set_done (b : bool) (e : TestbenchEnv) : TestbenchEnv :=
  mkEnv (ssh_connected e) (host e) (username e) (password e) (DT e)
        (executable_script_name e) (max_episode_steps e) (kP e) (kI e)
        (i_ref e) (f_nom e) (data e) (current_step e) b (i_limit e)
        (i_nominal e).

(** [TestbenchEnv.__init__] *)
Definition init (host username password : string) (DT : npfloat)
    (executable_script_name : string) (num_steps : Z)
    (kP kI i_ref f_nom i_limit i_nominal : npfloat) : TestbenchEnv :=
  mkEnv false host username password DT executable_script_name num_steps
        kP kI i_ref f_nom [] 0%Z false i_limit i_nominal.

(** What a method can see and change: the object and standard output. *)
Record world : Type := mkWorld {
  self : TestbenchEnv;
  stdout : stdout_t
}.

Definition get_self : M world TestbenchEnv := fun w => (w, Ok (self w)).

Definition modify_self (f : TestbenchEnv -> TestbenchEnv) : M world unit :=
  modify (fun w => mkWorld (f (self w)) (stdout w)).

(** A computation that only prints, run where the object is also in
    scope: a static method called from a method. *)
Definition on_stdout {A} (c : M stdout_t A) : M world A :=
  fun w =>
    let (out, r) := c (stdout w) in
    (mkWorld (self w) out, r).

(** The remote side of one [reset]: whether
    [connect(host, username=, password=)] succeeds, and what the command
    writes to its standard output ([None]: the session fails).  The
    command line [./script steps kP kI i_ref f_nom] is kept as its
    arguments. *)
Record command : Type := mkCommand {
  cmd_script : string;
  cmd_steps : Z;
  cmd_kP : npfloat;
  cmd_kI : npfloat;
  cmd_i_ref : npfloat;
  cmd_f_nom : npfloat
}.

Record remote : Type := mkRemote {
  connect : string -> string -> string -> bool;
  exec_command : command -> option string
}.

Section Testbench.

Variable py_float : string -> option npfloat.

(** [openmodelica_microgrid_gym.util.dq0_to_abc(dq0, theta)]: the
    three-phase set point of a dq0 set point at the angle [theta]. *)
Variable dq0_to_abc : vec3 -> npfloat -> vec3.

(** [TestbenchEnv.rew_fun(Iabc_meas, Idq0_SP, phase)] *)
Definition rew_fun (env : TestbenchEnv) (Iabc_meas Idq0_SP : vec3)
    (phase : npfloat) : npfloat :=
  let mu := Fin 2 in
  let Iabc_SP := dq0_to_abc Idq0_SP phase in
  let error :=
    add
      (vsum (vmap (fun x => pow_half (div x (i_limit env)))
                  (vmap abs (vmap2 sub Iabc_SP Iabc_meas))))
      (mul
         (neg (vsum (vmap
            (fun x =>
               mul mu
                 (log (sub (Fin 1)
                    (div (maximum (sub x (i_nominal env)) (Fin 0))
                         (sub (i_limit env) (i_nominal env))))))
            (vmap abs Iabc_meas))))
         (of_int (max_episode_steps env))) in
  neg error.

(** [TestbenchEnv.reset(kP, kI)] against the remote side [r]. *)
Definition reset (r : remote) (kP' kI' : npfloat) : M world unit :=
  modify_self (set_kP kP') ;;;
  modify_self (set_kI kI') ;;;
  env <- get_self ;;
  (if connect r (host env) (username env) (password env)
   then modify_self (set_ssh_connected true)
   else raise SSHException) ;;;
  let str_command :=
    mkCommand (executable_script_name env) (max_episode_steps env)
              (kP env) (kI env) (i_ref env) (f_nom env) in
  ssh_stdout <- try_opt SSHException (exec_command r str_command) ;;
  d <- on_stdout (decode_result py_float ssh_stdout) ;;
  modify_self (set_data d) ;;;
  modify_self (set_current_step 0%Z) ;;;
  modify_self (set_done false) ;;;
  modify_self (set_ssh_connected false).

(** What [step] returns: [(temp_data, reward, self.done, info)]; [info]
    is always the empty list. *)
Definition step_result : Type :=
  (list npfloat * npfloat * bool * list unit)%type.

(** [TestbenchEnv.step()] *)
Definition step : M world step_result :=
  env <- get_self ;;
  temp_data <- try_opt IndexError (getitem (data env) (current_step env)) ;;
  modify_self (fun e => set_current_step (current_step e + 1)%Z e) ;;;
  i3 <- try_opt IndexError (getitem temp_data 3%Z) ;;
  i4 <- try_opt IndexError (getitem temp_data 4%Z) ;;
  i5 <- try_opt IndexError (getitem temp_data 5%Z) ;;
  let I_abc_meas := V3 i3 i4 i5 in
  env <- get_self ;;
  let Idq0_SP := V3 (i_ref env) (Fin 0) (Fin 0) in
  phase <- try_opt IndexError (getitem temp_data 9%Z) ;;
  let reward := rew_fun env I_abc_meas Idq0_SP phase in
  (if (current_step env =? max_episode_steps env)%Z
   then modify_self (set_done true)
   else ret tt) ;;;
  env <- get_self ;;
  ret (temp_data, reward, done env, []).

(** [n] calls of [step] in a row, stopping at the first exception; the
    results of the calls, oldest first. *)
Fixpoint steps (n : nat) : M world (list step_result) :=
  match n with
  | O => ret []
  | S n' =>
      r <- step ;;
      rs <- steps n' ;;
      ret (r :: rs)
  end.

End Testbench.

(* ================================================================== *)
(** ** Reference definitions used in the statements *)
(* ================================================================== *)

(** The tokens of a line. *)
Definition tokens (line : string) : list string := split_comma line.

(** A telemetry record: a line of exactly 11 tokens. *)
Definition is_record (line : string) : bool :=
  (List.length (tokens line) =? 11)%nat.

(** Diagnostic output: any other number of tokens greater than one. *)
Definition is_diagnostic (line : string) : bool :=
  ((1 <? List.length (tokens line))%nat
   && negb (List.length (tokens line) =? 11)%nat)%bool.

(** All elements converted, or [None] if one is not a number. *)
Fixpoint convert_all (py_float : string -> option npfloat)
    (l : list string) : option (list npfloat) :=
  match l with
  | [] => Some []
  | t :: l' =>
      match py_float t, convert_all py_float l' with
      | Some x, Some xs => Some (x :: xs)
      | _, _ => None
      end
  end.

(** The row of a record: its first ten tokens as numbers. *)
Definition row_of (py_float : string -> option npfloat) (line : string)
  : option (list npfloat) :=
  convert_all py_float (firstn 10 (tokens line)).

(** Every row has the ten columns of the wire format. *)
Definition wf_data (d : ndarray) : Prop :=
  Forall (fun row => List.length row = 10%nat) d.

(** The tracking term of the reward: per phase, the square root of the
    absolute error over the current limit, summed over the phases. *)
Definition tracking_term (limit : npfloat) (Iabc_SP Iabc_meas : vec3)
  : npfloat :=
  vsum (vmap (fun e => pow_half (div (abs e) limit))
             (vmap2 sub Iabc_SP Iabc_meas)).

(** The barrier of one phase: [mu * log(1 - max(|i| - nominal, 0) /
    (limit - nominal))] with [mu = 2]. *)
Definition barrier_phase (limit nominal i : npfloat) : npfloat :=
  mul (Fin 2)
      (log (sub (Fin 1)
                (div (maximum (sub (abs i) nominal) (Fin 0))
                     (sub limit nominal)))).

(** The barrier term before scaling: minus the sum of the phase
    barriers. *)
Definition barrier_term (limit nominal : npfloat) (Iabc_meas : vec3)
  : npfloat :=
  neg (vsum (vmap (barrier_phase limit nominal) Iabc_meas)).

(** The same object with another step count. *)
Definition with_steps (n : Z) (e : TestbenchEnv) : TestbenchEnv :=
  mkEnv (ssh_connected e) (host e) (username e) (password e) (DT e)
        (executable_script_name e) n (kP e) (kI e)
        (i_ref e) (f_nom e) (data e) (current_step e) (done e) (i_limit e)
        (i_nominal e).

(** Magnitude of a measured current against a real bound. *)
Definition mag_le (x : npfloat) (r : R) : Prop :=
  match x with Fin a => (Rabs a <= r)%R | _ => False end.

Definition mag_lt (x : npfloat) (r : R) : Prop :=
  match x with Fin a => (Rabs a < r)%R | _ => False end.

(** The magnitude reaches or exceeds [r]; an infinite current does. *)
Definition mag_ge (x : npfloat) (r : R) : Prop :=
  match x with
  | Fin a => (r <= Rabs a)%R
  | PInf | NInf => True
  | NaN => False
  end.

(** The magnitude exceeds [r]. *)
Definition mag_gt (x : npfloat) (r : R) : Prop :=
  match x with
  | Fin a => (r < Rabs a)%R
  | PInf | NInf => True
  | NaN => False
  end.

Definition phases (v : vec3) : list npfloat := [v_a v; v_b v; v_c v].

(** A vector of three finite values. *)
Definition fin3 (a b c : R) : vec3 := V3 (Fin a) (Fin b) (Fin c).

(** The tracking error of one phase, on finite values. *)
Definition phase_error (L sp m : R) : R := sqrt (Rabs (sp - m) / L).

(** The barrier of one phase, on finite values below the limit. *)
Definition phase_barrier (L n x : R) : R :=
  (2 * ln (1 - Rmax (Rabs x - n) 0 / (L - n)))%R.

(** The effect of a successful [step] on the object. *)
Definition advance (e : TestbenchEnv) : TestbenchEnv :=
  let e1 := set_current_step (current_step e + 1)%Z e in
  if (current_step e1 =? max_episode_steps e1)%Z then set_done true e1
  else e1.

(** Column [k] of a telemetry row. *)
Definition col (row : list npfloat) (k : nat) : npfloat := nth k row NaN.

(** The reward [step] computes from a telemetry row: phase currents in
    columns 3 to 5, phase angle in column 9, set point [(i_ref, 0, 0)]. *)
Definition step_reward (dq0_to_abc : vec3 -> npfloat -> vec3)
    (e : TestbenchEnv) (row : list npfloat) : npfloat :=
  rew_fun dq0_to_abc e (V3 (col row 3) (col row 4) (col row 5))
          (V3 (i_ref e) (Fin 0) (Fin 0)) (col row 9).

(** What [k] successful calls of [step] return, starting from [e]. *)
Fixpoint trace (dq0_to_abc : vec3 -> npfloat -> vec3) (k : nat)
    (e : TestbenchEnv) : list step_result :=
  match k with
  | O => []
  | S k' =>
      (nth (Z.to_nat (current_step e)) (data e) [],
       step_reward dq0_to_abc e
                   (nth (Z.to_nat (current_step e)) (data e) []),
       done (advance e), [])
      :: trace dq0_to_abc k' (advance e)
  end.

(** Every attribute but [current_step] and [done] is the same. *)
Definition same_but_cursor_and_done (e e' : TestbenchEnv) : Prop :=
  data e' = data e /\ kP e' = kP e /\ kI e' = kI e
  /\ i_ref e' = i_ref e /\ i_limit e' = i_limit e
  /\ i_nominal e' = i_nominal e /\ f_nom e' = f_nom e
  /\ max_episode_steps e' = max_episode_steps e /\ DT e' = DT e
  /\ host e' = host e /\ username e' = username e
  /\ password e' = password e
  /\ executable_script_name e' = executable_script_name e
  /\ ssh_connected e' = ssh_connected e.

(** A telemetry row of the tracking scenario: ten columns, the three
    phase currents equal to 10 and the phase angle 0. *)
Definition scenario_row (row : list npfloat) : Prop :=
  List.length row = 10%nat
  /\ col row 3 = Fin 10 /\ col row 4 = Fin 10 /\ col row 5 = Fin 10
  /\ col row 9 = Fin 0.

(** The [done] flag a [step] returned. *)
Definition flag_of (r : step_result) : bool :=
  match r with (_, _, d, _) => d end.

(** The telemetry row a [step] returned. *)
Definition row_read (r : step_result) : list npfloat :=
  match r with (row, _, _, _) => row end.

(** The reward a [step] returned. *)
Definition reward_of (r : step_result) : npfloat :=
  match r with (_, rew, _, _) => rew end.

(* ================================================================== *)
(** ** Concrete collaborators for the examples *)
(* ================================================================== *)

Definition digit_of (c : ascii) : option Z :=
  let n := N_of_ascii c in
  if (N.leb 48 n && N.leb n 57)%bool then Some (Z.of_N n - 48)%Z else None.

Fixpoint digits_value (acc : Z) (s : string) : option Z :=
  match s with
  | EmptyString => Some acc
  | String c s' =>
      match digit_of c with
      | Some d => digits_value (10 * acc + d)%Z s'
      | None => None
      end
  end.

(** [float] on decimal integer literals (digits after an optional minus
    sign), the only numbers the examples contain; any other token is
    refused. *)
Definition float_of_literal (s : string) : option npfloat :=
  match s with
  | EmptyString => None
  | String c s' =>
      if Ascii.eqb c "-"%char then
        match s' with
        | EmptyString => None
        | _ => option_map (fun z => Fin (IZR (- z))) (digits_value 0 s')
        end
      else option_map (fun z => Fin (IZR z)) (digits_value 0 s)
  end.

Definition np_cos (x : npfloat) : npfloat :=
  match x with Fin r => Fin (cos r) | _ => NaN end.

Definition np_sin (x : npfloat) : npfloat :=
  match x with Fin r => Fin (sin r) | _ => NaN end.

(** Modelled from the spec: [dq0_to_abc] of
    [openmodelica_microgrid_gym.util], which is not among the sources.
    The spec has it "transform the dq0 setpoint into phase-aligned
    three-phase coordinates using the current phase angle", the dq0
    transform being the "rotating-frame coordinate transform used in
    three-phase control": the inverse Park transform, whose phases lie
    [2 pi / 3] apart and all carry the zero component. *)
Definition inverse_park (dq0 : vec3) (theta : npfloat) : vec3 :=
  let phase_at (shift : R) :=
    let th := add theta (Fin shift) in
    add (sub (mul (np_cos th) (v_a dq0)) (mul (np_sin th) (v_b dq0)))
        (v_c dq0) in
  V3 (phase_at 0%R)
     (phase_at (- (2 * (PI / 3)))%R)
     (phase_at (2 * (PI / 3))%R).

(** A remote side that accepts the connection and prints [raw]. *)
Definition remote_printing (raw : string) : remote :=
  mkRemote (fun _ _ _ => true) (fun _ => Some raw).

(** A remote side that refuses the connection. *)
Definition remote_unreachable : remote :=
  mkRemote (fun _ _ _ => false) (fun _ => None).

(** The object of [TestbenchEnv(num_steps=n)]: every other argument at
    its default. *)
Definition default_env (n : Z) : TestbenchEnv :=
  init "lea-jde10" "root" "" (Fin (1 / 20000)) "my_first_hps" n
       (Fin (1 / 100)) (Fin 5) (Fin 10) (Fin 50) (Fin 30) (Fin 20).

(** One telemetry record with every field equal to [v], as
    [v,v,...,v,] and a line feed. *)
Definition record_line (v : string) : string :=
  String.concat "," (repeat v 10) ++ "," ++ String LF EmptyString.

(** A record of the tracking scenario: voltages 0, phase currents 10,
    dq0 currents 0, phase angle 0. *)
Definition scenario_line : string :=
  "0,0,0,10,10,10,0,0,0,0," ++ String LF EmptyString.

Definition scenario_values : list npfloat :=
  [Fin 0; Fin 0; Fin 0; Fin 10; Fin 10; Fin 10; Fin 0; Fin 0; Fin 0; Fin 0].

(** An object with default parameters, [n] steps per episode and a
    buffer of [rows] scenario rows, cursor at 0. *)
Definition scenario_world (n : Z) (rows : nat) : world :=
  mkWorld (set_data (repeat scenario_values rows) (default_env n)) [].

(** A telemetry text with a diagnostic line, a record and a bare word. *)
Definition sample_text : string :=
  "hello,world" ++ String LF (record_line "10") ++ "x" ++ String LF "".

(* ================================================================== *)
(** ** The wire format, rendering and reachable states *)
(* ================================================================== *)

(** The number of commas in a line. *)
Fixpoint count_commas (s : string) : nat :=
  match s with
  | EmptyString => 0
  | String c rest =>
      (if Ascii.eqb c COMMA then 1 else 0) + count_commas rest
  end.

(** Every character of [s] satisfies [p]. *)
Fixpoint all_chars (p : ascii -> bool) (s : string) : bool :=
  match s with
  | EmptyString => true
  | String c rest => (p c && all_chars p rest)%bool
  end.

(** A character that does not end a line. *)
Definition inline_char (c : ascii) : bool :=
  (negb (Ascii.eqb c LF) && negb (Ascii.eqb c CR))%bool.

(** A character of a field: ASCII, and neither a comma nor a line end. *)
Definition field_char (c : ascii) : bool :=
  (byte_in 0 127 c && negb (Ascii.eqb c COMMA)
   && negb (Ascii.eqb c LF) && negb (Ascii.eqb c CR))%bool.

(** The text of a record on the wire: the fields, each followed by a
    comma. *)
Definition wire_line (fields : list string) : string :=
  String.concat "," fields ++ ",".

(** The records one after the other, each followed by the line end
    [eol]. *)
Fixpoint wire_text (eol : string) (records : list (list string)) : string :=
  match records with
  | [] => EmptyString
  | fields :: records' =>
      wire_line fields ++ eol ++ wire_text eol records'
  end.

(** The three line ends [bytes.splitlines] knows: [\n], [\r\n], [\r]. *)
Definition is_line_end (eol : string) : Prop :=
  eol = String LF EmptyString
  \/ eol = String CR (String LF EmptyString)
  \/ eol = String CR EmptyString.

(** Every attribute set at construction and never assigned again. *)
Definition same_config (e e' : TestbenchEnv) : Prop :=
  host e' = host e /\ username e' = username e
  /\ password e' = password e /\ DT e' = DT e
  /\ executable_script_name e' = executable_script_name e
  /\ max_episode_steps e' = max_episode_steps e
  /\ i_ref e' = i_ref e /\ f_nom e' = f_nom e
  /\ i_limit e' = i_limit e /\ i_nominal e' = i_nominal e.

(** A figure [render] shows: its y label, the time axis and the curves
    drawn against it. *)
Record plot : Type := mkPlot {
  ylabel : string;
  time_axis : list npfloat;
  curves : list (list npfloat)
}.

(** Element [k] of every row. *)
Fixpoint column_of (rows : ndarray) (k : nat) : option (list npfloat) :=
  match rows with
  | [] => Some []
  | row :: rows' =>
      match nth_error row k, column_of rows' k with
      | Some x, Some xs => Some (x :: xs)
      | _, _ => None
      end
  end.

(** [a[:, k]]; [None] is [IndexError].  The empty buffer is the
    one-dimensional [np.array(list())], which has no second axis. *)
Definition column (a : ndarray) (k : nat) : option (list npfloat) :=
  match a with
  | [] => None
  | _ => column_of a k
  end.

Section Rendering.

(** [np.linspace(start, stop, num)] *)
Variable linspace : npfloat -> npfloat -> nat -> list npfloat.

(** [TestbenchEnv.render()]; the value is the list of the figures shown,
    in order.  Every column is read before the first figure is drawn. *)
Definition render : M world (list plot) :=
  env <- get_self ;;
  let N := List.length (data env) in
  let t := linspace (Fin 0) (mul (of_int (Z.of_nat N)) (DT env)) N in
  V_A <- try_opt IndexError (column (data env) 0) ;;
  V_B <- try_opt IndexError (column (data env) 1) ;;
  V_C <- try_opt IndexError (column (data env) 2) ;;
  I_A <- try_opt IndexError (column (data env) 3) ;;
  I_B <- try_opt IndexError (column (data env) 4) ;;
  I_C <- try_opt IndexError (column (data env) 5) ;;
  I_D <- try_opt IndexError (column (data env) 6) ;;
  I_Q <- try_opt IndexError (column (data env) 7) ;;
  I_0 <- try_opt IndexError (column (data env) 8) ;;
  ret [mkPlot "Voltages (V)" t [V_A; V_B; V_C];
       mkPlot "Currents (A)" t [I_A; I_B; I_C];
       mkPlot "Currents DQ0(A)" t [I_D; I_Q; I_0]].

End Rendering.

Section Reachability.

Variable py_float : string -> option npfloat.
Variable dq0_to_abc : vec3 -> npfloat -> vec3.

(** The states an object can be in: constructed, then any sequence of
    [reset] and [step] calls, returning or raising, against any remote
    side. *)
Inductive reachable : world -> Prop :=
| reach_init :
    forall (host username password : string) (DT : npfloat)
           (executable_script_name : string) (num_steps : Z)
           (kP kI i_ref f_nom i_limit i_nominal : npfloat)
           (out : stdout_t),
      reachable
        (mkWorld (init host username password DT executable_script_name
                       num_steps kP kI i_ref f_nom i_limit i_nominal) out)
| reach_reset :
    forall (w : world) (r : remote) (kP' kI' : npfloat),
      reachable w -> reachable (fst (reset py_float r kP' kI' w))
| reach_step :
    forall w : world,
      reachable w -> reachable (fst (step dq0_to_abc w)).

End Reachability.

(** The loop of [__decode_result] gets past [line]: it is UTF-8 and, if a
    record, its first ten tokens are numbers. *)
Definition line_decodes (py_float : string -> option npfloat)
    (line : string) : bool :=
  match decode_utf8 line with
  | None => false
  | Some _ =>
      if is_record line then
        match row_of py_float line with Some _ => true | None => false end
      else true
  end.

(** The exception a line that does not decode raises. *)
Definition line_error (line : string) : exn :=
  match decode_utf8 line with
  | None => UnicodeDecodeError
  | Some _ => ValueError
  end.

(** A value that is not above zero: a real at most 0, [-inf] or [nan]. *)
Definition not_positive (x : npfloat) : Prop :=
  match x with
  | Fin r => (r <= 0)%R
  | PInf => False
  | NInf | NaN => True
  end.

(** A value that is not below zero: a real at least 0, [+inf] or [nan]. *)
Definition not_negative (x : npfloat) : Prop :=
  match x with
  | Fin r => (0 <= r)%R
  | NInf => False
  | PInf | NaN => True
  end.

(** An evenly spaced axis of [num] points from [start], [stop] being the
    last one: the time axis used in the examples. *)
Definition even_axis (start stop : npfloat) (num : nat) : list npfloat :=
  map (fun i => add start
                    (mul (of_int (Z.of_nat i))
                         (div (sub stop start)
                              (of_int (Z.of_nat (num - 1))))))
      (seq 0 num).

(** The ten fields of a record of the tracking scenario. *)
Definition scenario_fields : list string :=
  ["0"; "0"; "0"; "10"; "10"; "10"; "0"; "0"; "0"; "0"].

(** What holds of the episode state of every reachable object. *)
Definition episode_invariant (e : TestbenchEnv) : Prop :=
  wf_data (data e)
  /\ (0 <= current_step e <= Z.of_nat (List.length (data e)))%Z
  /\ done e = ((1 <=? max_episode_steps e)%Z
               && (max_episode_steps e <=? current_step e)%Z)%bool.

(* ================================================================== *)
(** ** The stream argument, comparisons, and binary64 *)
(* ================================================================== *)




Section StreamDecoder.

Variable py_float : string -> option npfloat.


End StreamDecoder.

(** numpy's [x <= y]: [False] as soon as one side is [nan]. *)
Definition np_le (x y : npfloat) : Prop :=
  match x, y with
  | NaN, _ | _, NaN => False
  | NInf, _ | _, PInf => True
  | Fin a, Fin b => (a <= b)%R
  | PInf, _ | _, NInf => False
  end.

(** The step counts of 64 bits.  [of_int] is total, whereas the product
    with [max_episode_steps] in [rew_fun] raises [OverflowError] for an
    int too large for a float; the theorems that say what [rew_fun] or
    [step] return keep to this range, in which the conversion
    returns. *)
Definition int64_range (n : Z) : Prop := (- 2 ^ 63 <= n < 2 ^ 63)%Z.

(** A three-phase quantity in binary64. *)
Record vec64 : Type := V64 { f_a : float; f_b : float; f_c : float }.

Definition vmap64 (f : float -> float) (v : vec64) : vec64 :=
  V64 (f (f_a v)) (f (f_b v)) (f (f_c v)).

Definition vmap2_64 (f : float -> float -> float) (v w : vec64) : vec64 :=
  V64 (f (f_a v) (f_a w)) (f (f_b v) (f_b w)) (f (f_c v) (f_c w)).

(** [np.maximum(x, y)] on binary64: [x] when [x >= y] or [x] is [nan]. *)
Definition maximum64 (x y : float) : float :=
  if (PrimFloat.leb y x || PrimFloat.is_nan x)%bool then x else y.

Section Binary64.

(** What IEEE 754 does not fix is left open: [np.log], the order in
    which [np.sum] adds the three phases, the float of the Python int
    [max_episode_steps], and [dq0_to_abc]. *)
Variable log64 : float -> float.
Variable sum64 : vec64 -> float.
Variable float_of_int : Z -> float.
Variable dq0_to_abc64 : vec64 -> float -> vec64.

(** [TestbenchEnv.rew_fun(Iabc_meas, Idq0_SP, phase)] over binary64, the
    attributes it reads being arguments; [x ** 0.5] is the correctly
    rounded square root. *)
Definition rew_fun64 (i_limit i_nominal : float) (max_episode_steps : Z)
    (Iabc_meas Idq0_SP : vec64) (phase : float) : float :=
  let mu := 2%float in
  let Iabc_SP := dq0_to_abc64 Idq0_SP phase in
  let error :=
    PrimFloat.add
      (sum64 (vmap64 (fun x => PrimFloat.sqrt (PrimFloat.div x i_limit))
                     (vmap64 PrimFloat.abs
                             (vmap2_64 PrimFloat.sub Iabc_SP Iabc_meas))))
      (PrimFloat.mul
         (PrimFloat.opp (sum64 (vmap64
            (fun x =>
               PrimFloat.mul mu
                 (log64 (PrimFloat.sub 1%float
                    (PrimFloat.div
                       (maximum64 (PrimFloat.sub x i_nominal) 0%float)
                       (PrimFloat.sub i_limit i_nominal)))))
            (vmap64 PrimFloat.abs Iabc_meas))))
         (float_of_int max_episode_steps)) in
  PrimFloat.opp error.

End Binary64.

(** The binary64 number next above 19.5, printed
    [19.500000000000004]. *)
Definition above_19_5 : float := PrimFloat.next_up 19.5%float.

(* ================================================================== *)
(** ** The decoder: rows, diagnostics, the stream *)
(* ================================================================== *)

Section DecoderFacts.

Variable py_float : string -> option npfloat.

Lemma split_comma_length (s : string) :
  (1 <= List.length (split_comma s))%nat.
Proof.
  induction s as [|c s IH]; simpl; [lia|].
  destruct (Ascii.eqb c COMMA); simpl; [lia|].
  destruct (split_comma s); simpl in *; lia.
Qed.

Lemma diagnostic_as_coded (line : string) :
  is_diagnostic line =
  (negb (List.length (split_comma line) =? 11)%nat
   && negb (List.length (split_comma line) =? 1)%nat)%bool.
Proof.
  unfold is_diagnostic, tokens.
  pose proof (split_comma_length line) as H.
  destruct (Nat.eqb_spec (List.length (split_comma line)) 11) as [E|E];
    destruct (Nat.eqb_spec (List.length (split_comma line)) 1) as [F|F];
    destruct (Nat.ltb_spec 1 (List.length (split_comma line)));
    simpl; try reflexivity; lia.
Qed.

Lemma pop_last_of_eleven (A : Type) (l : list A) :
  List.length l = 11%nat -> removelast l = firstn 10 l.
Proof.
  intros H. rewrite removelast_firstn_len, H. reflexivity.
Qed.

Lemma convert_all_length (l : list string) (xs : list npfloat) :
  convert_all py_float l = Some xs -> List.length xs = List.length l.
Proof.
  revert xs; induction l as [|t l IH]; simpl; intros xs H.
  - now inversion H.
  - destruct (py_float t); [|discriminate].
    destruct (convert_all py_float l) as [ys|]; [|discriminate].
    inversion H; subst; simpl. now rewrite (IH ys).
Qed.

(** The list comprehension prints nothing and raises [ValueError] at the
    first token that is not a number. *)
Lemma floats_of_convert_all (temp : list string) (out : stdout_t) :
  floats_of py_float temp out =
  (out, match convert_all py_float temp with
        | Some xs => Ok xs
        | None => Raise ValueError
        end).
Proof.
  induction temp as [|t temp IH]; simpl; [reflexivity|].
  unfold bind, try_opt.
  destruct (py_float t) as [x|]; simpl; [|reflexivity].
  rewrite IH.
  destruct (convert_all py_float temp); reflexivity.
Qed.


Lemma decode_lines_rows (lines : list string) :
  (forall line, In line lines -> decode_utf8 line <> None) ->
  (forall line, In line lines -> is_record line = true ->
                row_of py_float line <> None) ->
  forall (result : ndarray) (out : stdout_t),
  exists rows,
    decode_lines py_float lines result out =
      (out ++ map tokens (filter is_diagnostic lines), Ok (result ++ rows))
    /\ Forall2 (fun row line => row_of py_float line = Some row)
               rows (filter is_record lines).
Proof.
  induction lines as [|line lines IH]; intros Hutf Hnum result out.
  - exists []. simpl. rewrite !app_nil_r. split; [reflexivity|constructor].
  - assert (Hutf' : forall l, In l lines -> decode_utf8 l <> None)
      by (intros; apply Hutf; now right).
    assert (Hnum' : forall l, In l lines -> is_record l = true ->
                              row_of py_float l <> None)
      by (intros; apply Hnum; [now right|assumption]).
    specialize (IH Hutf' Hnum').
    assert (Hs : decode_utf8 line = Some line).
    { specialize (Hutf line (or_introl eq_refl)).
      unfold decode_utf8 in *. now destruct (utf8_valid line). }
    simpl. unfold bind at 1. unfold try_opt at 1. rewrite Hs. simpl.
    rewrite (diagnostic_as_coded line).
    unfold is_record, tokens.
    destruct (List.length (split_comma line) =? 11)%nat eqn:E11.
    + unfold bind at 1. rewrite floats_of_convert_all.
      apply Nat.eqb_eq in E11.
      rewrite (pop_last_of_eleven _ _ E11).
      specialize (Hnum line (or_introl eq_refl)).
      unfold is_record, row_of, tokens in Hnum.
      rewrite E11 in Hnum. specialize (Hnum eq_refl).
      destruct (convert_all py_float (firstn 10 (split_comma line)))
        as [floats|] eqn:Ef; [|congruence].
      destruct (IH (result ++ [floats]) out) as [rows [Hrun Hrows]].
      exists (floats :: rows). simpl. split.
      * rewrite Hrun. now rewrite <- app_assoc.
      * constructor; [|assumption]. unfold row_of, tokens. exact Ef.
    + simpl.
      destruct (negb (List.length (split_comma line) =? 1)%nat); simpl.
      * unfold bind at 1, print, modify. simpl.
        destruct (IH result (out ++ [split_comma line])) as [rows [Hrun Hrows]].
        exists rows. split; [|assumption].
        rewrite Hrun. unfold tokens. now rewrite <- app_assoc.
      * apply IH.
Qed.

Lemma rows_have_ten_columns (rows : list (list npfloat))
    (lines : list string) :
  Forall2 (fun row line => row_of py_float line = Some row) rows lines ->
  Forall (fun line => is_record line = true) lines ->
  wf_data rows.
Proof.
  induction 1 as [|row line rows lines Hrow _ IH]; intros Hrec.
  - constructor.
  - inversion Hrec; subst. constructor; [|now apply IH].
    unfold row_of in Hrow. apply convert_all_length in Hrow.
    rewrite Hrow. unfold is_record in *.
    match goal with H : (_ =? 11)%nat = true |- _ =>
      apply Nat.eqb_eq in H; rewrite length_firstn, H end.
    reflexivity.
Qed.

(** C1.  For a telemetry text whose lines are UTF-8 and whose 11-token
    lines carry numbers in their first ten tokens, [__decode_result]
    returns a table with one row per 11-token line, in input-line order,
    each row being the first ten tokens of its line converted to floating
    point (ten columns, the 11th token dropped); it prints exactly the
    lines with another number of tokens greater than one, as their token
    lists and in order; a line of one token gives neither a row nor
    output; and with no 11-token line the table is empty. *)
Theorem decode_result_rows_in_line_order (raw : string) (out : stdout_t) :
  let lines := splitlines raw in
  (forall line, In line lines -> decode_utf8 line <> None) ->
  (forall line, In line lines -> is_record line = true ->
                row_of py_float line <> None) ->
  exists table,
    decode_result py_float raw out =
      (out ++ map tokens (filter is_diagnostic lines), Ok table)
    /\ Forall2 (fun row line => row_of py_float line = Some row)
               table (filter is_record lines)
    /\ wf_data table
    /\ (forall line, List.length (tokens line) = 1%nat ->
                     is_record line = false /\ is_diagnostic line = false)
    /\ (filter is_record lines = [] -> table = []).
Proof.
  intros lines Hutf Hnum.
  destruct (decode_lines_rows lines Hutf Hnum [] out) as [rows [Hrun Hrows]].
  exists rows. simpl in Hrun. repeat split.
  - exact Hrun.
  - exact Hrows.
  - apply (rows_have_ten_columns _ _ Hrows).
    apply Forall_forall. intros l Hl. now apply filter_In in Hl.
  - unfold is_record. now rewrite H.
  - unfold is_diagnostic. now rewrite H.
  - intros Hnone. rewrite Hnone in Hrows. now inversion Hrows.
Qed.


End DecoderFacts.

(* ================================================================== *)
(** ** Arithmetic of [npfloat] *)
(* ================================================================== *)

Section FloatFacts.

Local Open Scope R_scope.

Lemma Rsign_pos (r : R) : 0 < r -> Rsign r = Gt.
Proof.
  intros H. unfold Rsign.
  destruct (total_order_T r 0) as [[Hlt|Heq]|Hgt]; [lra|lra|reflexivity].
Qed.

Lemma Rsign_neg (r : R) : r < 0 -> Rsign r = Lt.
Proof.
  intros H. unfold Rsign.
  destruct (total_order_T r 0) as [[Hlt|Heq]|Hgt]; [reflexivity|lra|lra].
Qed.

Lemma Rsign_zero : Rsign 0 = Eq.
Proof.
  unfold Rsign.
  destruct (total_order_T 0 0) as [[Hlt|Heq]|Hgt]; [lra|reflexivity|lra].
Qed.

Lemma div_fin (a b : R) : b <> 0 -> div (Fin a) (Fin b) = Fin (a / b).
Proof.
  intros H. unfold div, Rsign.
  destruct (total_order_T b 0) as [[Hlt|Heq]|Hgt];
    [reflexivity|contradiction|reflexivity].
Qed.

Lemma pow_half_fin (r : R) : 0 <= r -> pow_half (Fin r) = Fin (sqrt r).
Proof.
  intros H. unfold pow_half, Rsign.
  destruct (total_order_T r 0) as [[Hlt|Heq]|Hgt]; [lra|reflexivity|reflexivity].
Qed.

Lemma log_fin (r : R) : 0 < r -> log (Fin r) = Fin (ln r).
Proof. intros H. unfold log. now rewrite (Rsign_pos _ H). Qed.

Lemma log_nonpositive (r : R) : r <= 0 -> ~ is_finite (log (Fin r)).
Proof.
  intros H. unfold log, Rsign.
  destruct (total_order_T r 0) as [[Hlt|Heq]|Hgt]; simpl; [tauto|tauto|lra].
Qed.

Lemma add_zero_r (x : npfloat) : add x (Fin 0) = x.
Proof. destruct x; simpl; try reflexivity. f_equal; lra. Qed.

Lemma neg_nonfinite (x : npfloat) : ~ is_finite x -> ~ is_finite (neg x).
Proof. destruct x; simpl; tauto. Qed.

Lemma add_nonfinite_l (x y : npfloat) :
  ~ is_finite x -> ~ is_finite (add x y).
Proof. destruct x, y; simpl; tauto. Qed.

Lemma add_nonfinite_r (x y : npfloat) :
  ~ is_finite y -> ~ is_finite (add x y).
Proof. destruct x, y; simpl; tauto. Qed.

Lemma inf_of_sign_nonfinite (s : comparison) : ~ is_finite (inf_of_sign s).
Proof. destruct s; simpl; tauto. Qed.

Lemma mul_nonfinite_l (x y : npfloat) :
  ~ is_finite x -> ~ is_finite (mul x y).
Proof.
  destruct x, y; simpl; try tauto; intros _;
    try apply inf_of_sign_nonfinite.
Qed.

Lemma mul_nonfinite_r (x y : npfloat) :
  ~ is_finite y -> ~ is_finite (mul x y).
Proof.
  destruct x, y; simpl; try tauto; intros _;
    try apply inf_of_sign_nonfinite.
Qed.

Lemma vsum_nonfinite (v : vec3) :
  Exists (fun x => ~ is_finite x) (phases v) -> ~ is_finite (vsum v).
Proof.
  destruct v as [a b c]. unfold phases, vsum; simpl. intros H.
  repeat match goal with
         | H : Exists _ (_ :: _) |- _ => inversion H; clear H; subst
         | H : Exists _ [] |- _ => inversion H
         end.
  - now apply add_nonfinite_l, add_nonfinite_l.
  - now apply add_nonfinite_l, add_nonfinite_r.
  - now apply add_nonfinite_r.
Qed.

(** The tracking term on finite set points and currents. *)
Lemma tracking_term_fin (L a b c x1 x2 x3 : R) :
  0 < L ->
  tracking_term (Fin L) (fin3 a b c) (fin3 x1 x2 x3) =
  Fin (phase_error L a x1 + phase_error L b x2 + phase_error L c x3).
Proof.
  intros HL.
  assert (Hp : forall s m, pow_half (div (abs (sub (Fin s) (Fin m))) (Fin L))
                           = Fin (phase_error L s m)).
  { intros s m. cbn [sub neg add abs].
    rewrite div_fin by lra. rewrite pow_half_fin; [reflexivity|].
    apply Rmult_le_pos; [apply Rabs_pos|].
    left. now apply Rinv_0_lt_compat. }
  unfold tracking_term, fin3, vmap, vmap2, vsum. cbn [v_a v_b v_c].
  rewrite !Hp. reflexivity.
Qed.

Lemma phase_error_nonneg (L s m : R) : 0 <= phase_error L s m.
Proof. apply sqrt_pos. Qed.

(** The phase barrier of a finite current below the limit. *)
Lemma barrier_phase_fin (L n x : R) :
  n < L -> Rabs x < L ->
  barrier_phase (Fin L) (Fin n) (Fin x) = Fin (phase_barrier L n x).
Proof.
  intros Hn Hx. unfold barrier_phase, phase_barrier.
  cbn [abs sub neg add maximum].
  rewrite div_fin by lra. cbn [neg add].
  rewrite log_fin; [reflexivity|].
  assert (Hq : Rmax (Rabs x + - n) 0 / (L + - n) < 1).
  { apply (Rmult_lt_reg_r (L + - n)); [lra|].
    unfold Rdiv. rewrite Rmult_assoc, Rinv_l by lra.
    unfold Rmax. destruct (Rle_dec (Rabs x + - n) 0); lra. }
  lra.
Qed.

Lemma phase_barrier_nonpos (L n x : R) :
  n < L -> Rabs x < L -> phase_barrier L n x <= 0.
Proof.
  intros Hn Hx. unfold phase_barrier.
  assert (H0 : 0 <= Rmax (Rabs x - n) 0 / (L - n)).
  { apply Rmult_le_pos; [apply Rmax_r|].
    left. apply Rinv_0_lt_compat. lra. }
  assert (H1 : Rmax (Rabs x - n) 0 / (L - n) < 1).
  { apply (Rmult_lt_reg_r (L - n)); [lra|].
    unfold Rdiv. rewrite Rmult_assoc, Rinv_l by lra.
    unfold Rmax. destruct (Rle_dec (Rabs x - n) 0); lra. }
  destruct (Req_dec (Rmax (Rabs x - n) 0 / (L - n)) 0) as [E|E].
  - rewrite E, Rminus_0_r, ln_1. lra.
  - assert (ln (1 - Rmax (Rabs x - n) 0 / (L - n)) < ln 1)
      by (apply ln_increasing; lra).
    rewrite ln_1 in *. lra.
Qed.

Lemma phase_barrier_zero (L n x : R) :
  n <> L -> Rabs x <= n -> phase_barrier L n x = 0.
Proof.
  intros Hn Hx. unfold phase_barrier.
  rewrite Rmax_right by lra.
  replace (1 - 0 / (L - n)) with 1 by (field; lra).
  rewrite ln_1. ring.
Qed.

(** At or below the nominal current the phase barrier is exactly zero. *)
Lemma barrier_phase_at_nominal (L n x : R) :
  n < L -> Rabs x <= n -> barrier_phase (Fin L) (Fin n) (Fin x) = Fin 0.
Proof.
  intros Hn Hx. rewrite barrier_phase_fin by lra.
  now rewrite phase_barrier_zero by lra.
Qed.

(** At or beyond the limit the phase barrier is not a finite number. *)
Lemma barrier_phase_at_limit (L n : R) (x : npfloat) :
  n < L -> mag_ge x L -> ~ is_finite (barrier_phase (Fin L) (Fin n) x).
Proof.
  intros Hn Hx. unfold barrier_phase. apply mul_nonfinite_r.
  destruct x as [a| | |]; cbn [abs sub neg add maximum];
    try (simpl in Hx; contradiction).
  - simpl in Hx. rewrite div_fin by lra. cbn [neg add].
    apply log_nonpositive.
    assert (Hq : 1 <= Rmax (Rabs a + - n) 0 / (L + - n)).
    { apply (Rmult_le_reg_r (L + - n)); [lra|].
      unfold Rdiv. rewrite Rmult_assoc, Rinv_l by lra.
      unfold Rmax. destruct (Rle_dec (Rabs a + - n) 0); lra. }
    lra.
  - unfold div. rewrite Rsign_pos by lra. simpl. tauto.
  - unfold div. rewrite Rsign_pos by lra. simpl. tauto.
Qed.

End FloatFacts.

(* ================================================================== *)
(** ** The reward *)
(* ================================================================== *)

Section RewardFacts.

Variable dq0_to_abc : vec3 -> npfloat -> vec3.

Local Open Scope R_scope.

(** The expression of [rew_fun], read as its two terms. *)
Lemma rew_fun_two_terms (env : TestbenchEnv) (m sp : vec3) (ph : npfloat) :
  rew_fun dq0_to_abc env m sp ph =
  neg (add (tracking_term (i_limit env) (dq0_to_abc sp ph) m)
           (mul (barrier_term (i_limit env) (i_nominal env) m)
                (of_int (max_episode_steps env)))).
Proof. reflexivity. Qed.

Lemma barrier_term_fin (L n x1 x2 x3 : R) :
  n < L -> Rabs x1 < L -> Rabs x2 < L -> Rabs x3 < L ->
  barrier_term (Fin L) (Fin n) (fin3 x1 x2 x3) =
  Fin (- (phase_barrier L n x1 + phase_barrier L n x2
          + phase_barrier L n x3)).
Proof.
  intros Hn H1 H2 H3.
  unfold barrier_term, fin3, vmap, vsum. cbn [v_a v_b v_c].
  rewrite !barrier_phase_fin by assumption. reflexivity.
Qed.

(** The reward on finite values below the limit. *)
Lemma rew_fun_fin (env : TestbenchEnv) (L n a b c x1 x2 x3 : R)
    (sp : vec3) (ph : npfloat) :
  i_limit env = Fin L -> i_nominal env = Fin n -> n < L ->
  dq0_to_abc sp ph = fin3 a b c ->
  Rabs x1 < L -> Rabs x2 < L -> Rabs x3 < L ->
  rew_fun dq0_to_abc env (fin3 x1 x2 x3) sp ph =
  Fin (- ((phase_error L a x1 + phase_error L b x2 + phase_error L c x3)
          + - (phase_barrier L n x1 + phase_barrier L n x2
               + phase_barrier L n x3)
            * IZR (max_episode_steps env))).
Proof.
  intros HL Hn Hlt Hsp H1 H2 H3.
  rewrite rew_fun_two_terms, HL, Hn, Hsp.
  assert (0 < L) by (pose proof (Rabs_pos x1); lra).
  rewrite tracking_term_fin by assumption.
  rewrite barrier_term_fin by assumption.
  reflexivity.
Qed.

Lemma mag_le_fin (x : npfloat) (r : R) :
  mag_le x r -> exists a, x = Fin a /\ Rabs a <= r.
Proof. destruct x; simpl; try tauto. intros H. eauto. Qed.

Lemma mag_lt_fin (x : npfloat) (r : R) :
  mag_lt x r -> exists a, x = Fin a /\ Rabs a < r.
Proof. destruct x; simpl; try tauto. intros H. eauto. Qed.

Lemma is_finite_fin (x : npfloat) : is_finite x -> exists a, x = Fin a.
Proof. destruct x; simpl; try tauto. eauto. Qed.

Lemma phases_forall3 (P : npfloat -> Prop) (m : vec3) :
  Forall P (phases m) -> P (v_a m) /\ P (v_b m) /\ P (v_c m).
Proof.
  unfold phases. intros H.
  inversion H as [|? ? Ha H1]; subst.
  inversion H1 as [|? ? Hb H2]; subst.
  inversion H2 as [|? ? Hc H3]; subst.
  auto.
Qed.

Lemma phases_exists3 (P : npfloat -> Prop) (m : vec3) :
  Exists P (phases m) -> P (v_a m) \/ P (v_b m) \/ P (v_c m).
Proof.
  unfold phases. intros H.
  inversion H as [? ? Ha|? ? H1]; subst; [auto|].
  inversion H1 as [? ? Hb|? ? H2]; subst; [auto|].
  inversion H2 as [? ? Hc|? ? H3]; subst; [auto|].
  inversion H3.
Qed.

Lemma phases_mag_le (m : vec3) (r : R) :
  Forall (fun x => mag_le x r) (phases m) ->
  exists x1 x2 x3,
    m = fin3 x1 x2 x3 /\ Rabs x1 <= r /\ Rabs x2 <= r /\ Rabs x3 <= r.
Proof.
  intros H. apply phases_forall3 in H. destruct m as [a b c].
  destruct H as [Ha [Hb Hc]]. simpl in *.
  apply mag_le_fin in Ha, Hb, Hc.
  destruct Ha as [x1 [-> ?]], Hb as [x2 [-> ?]], Hc as [x3 [-> ?]].
  exists x1, x2, x3. auto.
Qed.

Lemma phases_mag_lt (m : vec3) (r : R) :
  Forall (fun x => mag_lt x r) (phases m) ->
  exists x1 x2 x3,
    m = fin3 x1 x2 x3 /\ Rabs x1 < r /\ Rabs x2 < r /\ Rabs x3 < r.
Proof.
  intros H. apply phases_forall3 in H. destruct m as [a b c].
  destruct H as [Ha [Hb Hc]]. simpl in *.
  apply mag_lt_fin in Ha, Hb, Hc.
  destruct Ha as [x1 [-> ?]], Hb as [x2 [-> ?]], Hc as [x3 [-> ?]].
  exists x1, x2, x3. auto.
Qed.

Lemma phases_finite (v : vec3) :
  Forall is_finite (phases v) -> exists a b c, v = fin3 a b c.
Proof.
  intros H. apply phases_forall3 in H. destruct v as [a b c].
  destruct H as [Ha [Hb Hc]]. simpl in *.
  apply is_finite_fin in Ha, Hb, Hc.
  destruct Ha as [x1 ->], Hb as [x2 ->], Hc as [x3 ->].
  exists x1, x2, x3. reflexivity.
Qed.

(** Close to the limit the barrier of a phase is as negative as wanted. *)
Lemma phase_barrier_below (L n bound x : R) :
  n < L -> Rabs x < L ->
  L - (L - n) * exp (- Rabs bound / 2 - 1) < Rabs x ->
  phase_barrier L n x < bound.
Proof.
  intros Hn Hx Hclose. unfold phase_barrier.
  set (e := exp (- Rabs bound / 2 - 1)) in *.
  assert (He0 : 0 < e) by apply exp_pos.
  assert (He1 : e < 1).
  { unfold e.
    pose proof (exp_increasing (- Rabs bound / 2 - 1) 0) as Hi.
    rewrite exp_0 in Hi. apply Hi.
    pose proof (Rabs_pos bound). lra. }
  assert (Hw : (L - n) * e < (L - n) * 1)
    by (apply Rmult_lt_compat_l; lra).
  assert (Hnx : n < Rabs x) by lra.
  rewrite Rmax_left by lra.
  replace (1 - (Rabs x - n) / (L - n)) with ((L - Rabs x) / (L - n))
    by (field; lra).
  assert (Hq0 : 0 < (L - Rabs x) / (L - n)).
  { apply Rmult_lt_0_compat; [lra|]. apply Rinv_0_lt_compat. lra. }
  assert (Hq1 : (L - Rabs x) / (L - n) < e).
  { apply (Rmult_lt_reg_r (L - n)); [lra|].
    unfold Rdiv. rewrite Rmult_assoc, Rinv_l by lra. lra. }
  assert (Hln : ln ((L - Rabs x) / (L - n)) < ln e)
    by (apply ln_increasing; assumption).
  unfold e in Hln. rewrite ln_exp in Hln.
  pose proof (Rle_abs bound). pose proof (Rabs_pos bound).
  assert (- Rabs bound <= bound).
  { unfold Rabs. destruct (Rcase_abs bound); lra. }
  lra.
Qed.

(** C3.  With the nominal current below the limit: (1) when every phase
    current magnitude is at or below [i_nominal] the barrier term is
    exactly zero and the reward is the negated tracking term alone;
    (2) with at least one step per episode and a finite three-phase set
    point, as a phase current magnitude approaches [i_limit] from above
    [i_nominal] (the others staying below the limit) the reward falls
    below every bound: each bound has a margin [delta], no wider than the
    gap between nominal and limit, within which the reward is under it;
    (3) once a phase current magnitude reaches or exceeds [i_limit], the
    barrier term, and with it the reward, is not a finite number. *)
Theorem barrier_zero_diverging_nonfinite (env : TestbenchEnv) (n L : R) :
  i_nominal env = Fin n -> i_limit env = Fin L -> n < L ->
  (forall m sp ph,
      Forall (fun x => mag_le x n) (phases m) ->
      mul (barrier_term (i_limit env) (i_nominal env) m)
          (of_int (max_episode_steps env)) = Fin 0
      /\ rew_fun dq0_to_abc env m sp ph =
         neg (tracking_term (i_limit env) (dq0_to_abc sp ph) m))
  /\ ((1 <= max_episode_steps env)%Z ->
      forall bound : R,
        exists delta, 0 < delta <= L - n /\
          forall m sp ph,
            Forall is_finite (phases (dq0_to_abc sp ph)) ->
            Forall (fun x => mag_lt x L) (phases m) ->
            Exists (fun x => mag_gt x (L - delta)) (phases m) ->
            exists rho,
              rew_fun dq0_to_abc env m sp ph = Fin rho /\ rho < bound)
  /\ (forall m sp ph,
        Exists (fun x => mag_ge x L) (phases m) ->
        ~ is_finite (mul (barrier_term (i_limit env) (i_nominal env) m)
                         (of_int (max_episode_steps env)))
        /\ ~ is_finite (rew_fun dq0_to_abc env m sp ph)).
Proof.
  intros Hn HL Hlt. split; [|split].
  - intros m sp ph Hm.
    destruct (@phases_mag_le m n Hm) as [x1 [x2 [x3 [-> [H1 [H2 H3]]]]]].
    assert (Hz : mul (barrier_term (i_limit env) (i_nominal env)
                        (fin3 x1 x2 x3))
                     (of_int (max_episode_steps env)) = Fin 0).
    { rewrite HL, Hn.
      rewrite barrier_term_fin by lra.
      rewrite !phase_barrier_zero by lra.
      unfold of_int. cbn [mul]. f_equal. ring. }
    split; [exact Hz|].
    rewrite rew_fun_two_terms, Hz. now rewrite add_zero_r.
  - intros HN bound.
    exists ((L - n) * exp (- Rabs bound / 2 - 1)).
    assert (He0 : 0 < exp (- Rabs bound / 2 - 1)) by apply exp_pos.
    assert (He1 : exp (- Rabs bound / 2 - 1) < 1).
    { pose proof (exp_increasing (- Rabs bound / 2 - 1) 0) as Hi.
      rewrite exp_0 in Hi. apply Hi.
      pose proof (Rabs_pos bound). lra. }
    split; [nra|].
    intros m sp ph Hsp Hm Hk.
    destruct (@phases_finite _ Hsp) as [a [b [c Esp]]].
    destruct (@phases_mag_lt m L Hm) as [x1 [x2 [x3 [-> [H1 [H2 H3]]]]]].
    rewrite (@rew_fun_fin env L n a b c x1 x2 x3 sp ph) by assumption.
    eexists; split; [reflexivity|].
    pose proof (phase_error_nonneg L a x1).
    pose proof (phase_error_nonneg L b x2).
    pose proof (phase_error_nonneg L c x3).
    pose proof (phase_barrier_nonpos L n x1 Hlt H1) as B1.
    pose proof (phase_barrier_nonpos L n x2 Hlt H2) as B2.
    pose proof (phase_barrier_nonpos L n x3 Hlt H3) as B3.
    assert (HNr : 1 <= IZR (max_episode_steps env)) by now apply IZR_le.
    assert (Hone : phase_barrier L n x1 < bound
                   \/ phase_barrier L n x2 < bound
                   \/ phase_barrier L n x3 < bound).
    { apply phases_exists3 in Hk. simpl in Hk.
      destruct Hk as [Hk|[Hk|Hk]]; [left|right; left|right; right];
        apply phase_barrier_below; assumption. }
    nra.
  - intros m sp ph Hk.
    assert (Hb : ~ is_finite (barrier_term (i_limit env) (i_nominal env) m)).
    { rewrite HL, Hn. unfold barrier_term. apply neg_nonfinite.
      apply vsum_nonfinite. apply phases_exists3 in Hk.
      unfold phases, vmap; simpl.
      destruct Hk as [Hk|[Hk|Hk]];
        [apply Exists_cons_hd
        |apply Exists_cons_tl, Exists_cons_hd
        |apply Exists_cons_tl, Exists_cons_tl, Exists_cons_hd];
        now apply barrier_phase_at_limit. }
    split.
    + now apply mul_nonfinite_l.
    + rewrite rew_fun_two_terms. apply neg_nonfinite, add_nonfinite_r.
      now apply mul_nonfinite_l.
Qed.

End RewardFacts.

Section RewardShape.

Variable dq0_to_abc : vec3 -> npfloat -> vec3.

Local Open Scope R_scope.

Lemma phase_error_le (L s m m' : R) :
  0 < L -> Rabs (s - m) <= Rabs (s - m') ->
  phase_error L s m <= phase_error L s m'.
Proof.
  intros HL H. unfold phase_error. apply sqrt_le_1_alt.
  apply Rmult_le_compat_r; [|exact H].
  left. now apply Rinv_0_lt_compat.
Qed.

(** C4.  For a fixed dq0 set point and phase angle (whose three-phase
    set point is finite), measured currents of magnitude at most
    [i_nominal] and a step count of 64 bits, the reward does not rise
    when the measurement moves away from the set point: if no per-phase
    absolute tracking error is smaller, the reward is not larger.  It
    need not fall: in binary64 two measurements with different errors
    can earn the same reward. *)
Theorem reward_not_higher_for_larger_tracking_error
    (env : TestbenchEnv) (n L : R) (sp : vec3) (ph : npfloat)
    (a b c x1 x2 x3 y1 y2 y3 : R) :
  i_nominal env = Fin n -> i_limit env = Fin L -> n < L ->
  int64_range (max_episode_steps env) ->
  dq0_to_abc sp ph = fin3 a b c ->
  Rabs x1 <= n -> Rabs x2 <= n -> Rabs x3 <= n ->
  Rabs y1 <= n -> Rabs y2 <= n -> Rabs y3 <= n ->
  Rabs (a - x1) <= Rabs (a - y1) ->
  Rabs (b - x2) <= Rabs (b - y2) ->
  Rabs (c - x3) <= Rabs (c - y3) ->
  np_le (rew_fun dq0_to_abc env (fin3 y1 y2 y3) sp ph)
        (rew_fun dq0_to_abc env (fin3 x1 x2 x3) sp ph).
Proof.
  intros Hn HL Hlt _ Hsp X1 X2 X3 Y1 Y2 Y3 E1 E2 E3.
  assert (HL0 : 0 < L) by (pose proof (Rabs_pos x1); lra).
  rewrite (rew_fun_fin dq0_to_abc env L n a b c x1 x2 x3 sp ph)
    by (assumption || lra).
  rewrite (rew_fun_fin dq0_to_abc env L n a b c y1 y2 y3 sp ph)
    by (assumption || lra).
  cbn [np_le].
  rewrite !phase_barrier_zero by lra.
  pose proof (phase_error_le L a x1 y1 HL0 E1).
  pose proof (phase_error_le L b x2 y2 HL0 E2).
  pose proof (phase_error_le L c x3 y3 HL0 E3).
  lra.
Qed.

(** C6.  For every input the reward is minus the sum of the tracking
    term and of the barrier term times [max_episode_steps]; neither term
    depends on the step count.  So whenever both terms are finite, the
    reward for a step count [N] is [-(T + B * N)]: the barrier [B] is
    weighted by the number of steps, the tracking term [T] is not. *)
Theorem barrier_scaled_by_steps_tracking_unscaled
    (env : TestbenchEnv) (m sp : vec3) (ph : npfloat) :
  rew_fun dq0_to_abc env m sp ph =
    neg (add (tracking_term (i_limit env) (dq0_to_abc sp ph) m)
             (mul (barrier_term (i_limit env) (i_nominal env) m)
                  (of_int (max_episode_steps env))))
  /\ (forall T B : R,
        tracking_term (i_limit env) (dq0_to_abc sp ph) m = Fin T ->
        barrier_term (i_limit env) (i_nominal env) m = Fin B ->
        forall N : Z,
          rew_fun dq0_to_abc (with_steps N env) m sp ph
          = Fin (- (T + B * IZR N))).
Proof.
  split.
  - apply rew_fun_two_terms.
  - intros T B HT HB N.
    rewrite rew_fun_two_terms.
    change (i_limit (with_steps N env)) with (i_limit env).
    change (i_nominal (with_steps N env)) with (i_nominal env).
    change (max_episode_steps (with_steps N env)) with N.
    rewrite HT, HB. reflexivity.
Qed.

End RewardShape.

(* ================================================================== *)
(** ** The stepper *)
(* ================================================================== *)

Section StepperFacts.

Variable py_float : string -> option npfloat.
Variable dq0_to_abc : vec3 -> npfloat -> vec3.

Local Open Scope Z_scope.

Lemma getitem_in_range (A : Type) (a : list A) (i : Z) (d : A) :
  0 <= i < Z.of_nat (List.length a) ->
  getitem a i = Some (nth (Z.to_nat i) a d).
Proof.
  intros H. unfold getitem.
  destruct (Z.leb_spec 0 i); [|lia].
  apply nth_error_nth'. lia.
Qed.

Lemma getitem_past_end (A : Type) (a : list A) (i : Z) :
  Z.of_nat (List.length a) <= i -> getitem a i = None.
Proof.
  intros H. unfold getitem.
  destruct (Z.leb_spec 0 i); [|lia].
  apply nth_error_None. lia.
Qed.

Lemma getitem_some_bound (A : Type) (a : list A) (i : Z) (x : A) :
  0 <= i -> getitem a i = Some x ->
  i < Z.of_nat (List.length a) /\ nth_error a (Z.to_nat i) = Some x.
Proof.
  intros Hi H. unfold getitem in H.
  destruct (Z.leb_spec 0 i); [|lia].
  split; [|exact H].
  assert (Z.to_nat i < List.length a)%nat
    by (apply nth_error_Some; congruence).
  lia.
Qed.

Lemma getitem_col (row : list npfloat) (k : nat) :
  (k < List.length row)%nat ->
  getitem row (Z.of_nat k) = Some (col row k).
Proof.
  intros H. unfold col.
  rewrite (getitem_in_range _ row (Z.of_nat k) NaN) by lia.
  now rewrite Nat2Z.id.
Qed.

(** A [step] whose cursor points at a row of ten columns succeeds. *)
Lemma step_reads_row (w : world) :
  0 <= current_step (self w) < Z.of_nat (List.length (data (self w))) ->
  wf_data (data (self w)) ->
  step dq0_to_abc w =
  (mkWorld (advance (self w)) (stdout w),
   Ok (nth (Z.to_nat (current_step (self w))) (data (self w)) [],
       step_reward dq0_to_abc (self w)
         (nth (Z.to_nat (current_step (self w))) (data (self w)) []),
       done (advance (self w)), [])).
Proof.
  intros Hc Hwf.
  set (row := nth (Z.to_nat (current_step (self w))) (data (self w)) []).
  assert (Hrow : getitem (data (self w)) (current_step (self w)) = Some row)
    by now apply getitem_in_range.
  assert (Hlen : List.length row = 10%nat).
  { unfold wf_data in Hwf. rewrite Forall_forall in Hwf.
    apply Hwf. unfold row. apply nth_In. lia. }
  pose proof (getitem_col row 3) as G3.
  pose proof (getitem_col row 4) as G4.
  pose proof (getitem_col row 5) as G5.
  pose proof (getitem_col row 9) as G9.
  rewrite Hlen in G3, G4, G5, G9.
  specialize (G3 ltac:(lia)). specialize (G4 ltac:(lia)).
  specialize (G5 ltac:(lia)). specialize (G9 ltac:(lia)).
  change (Z.of_nat 3) with 3 in G3. change (Z.of_nat 4) with 4 in G4.
  change (Z.of_nat 5) with 5 in G5. change (Z.of_nat 9) with 9 in G9.
  unfold step, bind, get_self, try_opt, modify_self, modify, ret.
  rewrite Hrow. cbn [self stdout]. rewrite G3, G4, G5, G9.
  unfold advance. cbn [self stdout].
  destruct (current_step (set_current_step (current_step (self w) + 1)
                                           (self w))
            =? max_episode_steps (set_current_step
                                    (current_step (self w) + 1) (self w)));
    reflexivity.
Qed.

(** A [step] whose cursor is past the buffer raises [IndexError] and
    changes nothing. *)
Lemma step_past_buffer (w : world) :
  Z.of_nat (List.length (data (self w))) <= current_step (self w) ->
  step dq0_to_abc w = (w, Raise IndexError).
Proof.
  intros H. unfold step, bind, get_self, try_opt.
  now rewrite getitem_past_end.
Qed.

Lemma advance_frame (e : TestbenchEnv) :
  current_step (advance e) = current_step e + 1
  /\ same_but_cursor_and_done e (advance e).
Proof.
  unfold advance, same_but_cursor_and_done.
  destruct (current_step (set_current_step (current_step e + 1) e)
            =? max_episode_steps (set_current_step (current_step e + 1) e));
    simpl; repeat split.
Qed.

Lemma advance_done (e : TestbenchEnv) :
  done (advance e) =
  (done e || (current_step e + 1 =? max_episode_steps e))%bool.
Proof.
  unfold advance. simpl.
  destruct (current_step e + 1 =? max_episode_steps e); simpl;
    [now rewrite orb_true_r|now rewrite orb_false_r].
Qed.

(** [k] calls succeed when [k] rows are left in the buffer. *)
Lemma steps_within_buffer (k : nat) :
  forall w : world,
    0 <= current_step (self w) ->
    current_step (self w) + Z.of_nat k
      <= Z.of_nat (List.length (data (self w))) ->
    wf_data (data (self w)) ->
    steps dq0_to_abc k w =
    (mkWorld (Nat.iter k advance (self w)) (stdout w),
     Ok (trace dq0_to_abc k (self w))).
Proof.
  induction k as [|k IH]; intros w Hc Hk Hwf.
  - destruct w; reflexivity.
  - cbn [steps]. unfold bind at 1.
    rewrite step_reads_row by (assumption || lia).
    destruct (advance_frame (self w)) as [Hcur [Hdata _]].
    unfold bind at 1.
    rewrite IH; cbn [self stdout]; rewrite ?Hcur, ?Hdata;
      try assumption; try lia.
    unfold ret. cbn [trace]. rewrite <- Nat.iter_succ_r. reflexivity.
Qed.

Lemma iter_advance_frame (k : nat) (e : TestbenchEnv) :
  current_step (Nat.iter k advance e) = current_step e + Z.of_nat k
  /\ data (Nat.iter k advance e) = data e
  /\ max_episode_steps (Nat.iter k advance e) = max_episode_steps e.
Proof.
  induction k as [|k [IHc [IHd IHm]]].
  - simpl. repeat split. lia.
  - change (Nat.iter (S k) advance e)
      with (advance (Nat.iter k advance e)).
    destruct (advance_frame (Nat.iter k advance e))
      as [Hc [Hd [_ [_ [_ [_ [_ [_ [Hm _]]]]]]]]].
    rewrite Hc, Hd, Hm, IHc, IHd, IHm. repeat split. lia.
Qed.

(** One call more than rows are left raises [IndexError]. *)
Lemma steps_past_buffer (k : nat) (w : world) :
  0 <= current_step (self w) ->
  current_step (self w) + Z.of_nat k
    = Z.of_nat (List.length (data (self w))) ->
  wf_data (data (self w)) ->
  forall extra : nat,
    steps dq0_to_abc (k + S extra) w =
    (mkWorld (Nat.iter k advance (self w)) (stdout w), Raise IndexError).
Proof.
  revert w. induction k as [|k IH]; intros w Hc Hk Hwf extra.
  - cbn [Nat.add steps]. unfold bind at 1.
    rewrite step_past_buffer by lia. destruct w; reflexivity.
  - cbn [Nat.add steps]. unfold bind at 1.
    rewrite step_reads_row by (assumption || lia).
    destruct (advance_frame (self w)) as [Hcur [Hdata _]].
    unfold bind at 1.
    rewrite IH; cbn [self stdout]; rewrite ?Hcur, ?Hdata;
      try assumption; try lia.
    rewrite <- Nat.iter_succ_r. reflexivity.
Qed.

End StepperFacts.

Section EpisodeFacts.

Variable py_float : string -> option npfloat.
Variable dq0_to_abc : vec3 -> npfloat -> vec3.

Local Open Scope Z_scope.

Lemma step_reward_frame (e e' : TestbenchEnv) (row : list npfloat) :
  same_but_cursor_and_done e e' ->
  step_reward dq0_to_abc e' row = step_reward dq0_to_abc e row.
Proof.
  intros [_ [_ [_ [Hr [Hl [Hn [_ [Hm _]]]]]]]].
  unfold step_reward, rew_fun. now rewrite Hr, Hl, Hn, Hm.
Qed.

Lemma iter_advance_done (k : nat) (e : TestbenchEnv) :
  done (Nat.iter k advance e) =
  (done e
   || ((current_step e <? max_episode_steps e)
       && (max_episode_steps e <=? current_step e + Z.of_nat k)))%bool.
Proof.
  induction k as [|k IH].
  - simpl. destruct (done e); simpl; [reflexivity|].
    destruct (Z.ltb_spec (current_step e) (max_episode_steps e));
      destruct (Z.leb_spec (max_episode_steps e) (current_step e + 0));
      simpl; try reflexivity; lia.
  - change (Nat.iter (S k) advance e)
      with (advance (Nat.iter k advance e)).
    rewrite advance_done, IH.
    destruct (iter_advance_frame k e) as [Hc [_ Hm]]. rewrite Hc, Hm.
    rewrite Nat2Z.inj_succ.
    destruct (done e); cbn [orb]; [reflexivity|].
    destruct (Z.ltb_spec (current_step e) (max_episode_steps e));
      destruct (Z.leb_spec (max_episode_steps e)
                           (current_step e + Z.of_nat k));
      destruct (Z.leb_spec (max_episode_steps e)
                           (current_step e + Z.succ (Z.of_nat k)));
      destruct (Z.eqb_spec (current_step e + Z.of_nat k + 1)
                           (max_episode_steps e));
      cbn [orb andb]; try reflexivity; lia.
Qed.

(** The [j]-th result of a trace: the buffer row under the cursor, its
    reward, and the flag after [j + 1] steps. *)
Lemma trace_nth (k : nat) :
  forall (e : TestbenchEnv) (j : nat),
    0 <= current_step e ->
    (j < k)%nat ->
    nth_error (trace dq0_to_abc k e) j =
    Some (nth (Z.to_nat (current_step e) + j) (data e) [],
          step_reward dq0_to_abc e
            (nth (Z.to_nat (current_step e) + j) (data e) []),
          done (Nat.iter (S j) advance e), []).
Proof.
  induction k as [|k IH]; intros e j Hc Hj; [lia|].
  destruct j as [|j]; cbn [trace nth_error].
  - now rewrite Nat.add_0_r.
  - destruct (advance_frame e) as [Hcur Hsame].
    rewrite IH by lia.
    rewrite (step_reward_frame _ _ _ Hsame).
    destruct Hsame as [Hdata _]. rewrite Hcur, Hdata.
    replace (Z.to_nat (current_step e + 1) + j)%nat
      with (Z.to_nat (current_step e) + S j)%nat by lia.
    now rewrite <- (Nat.iter_succ_r (S j)).
Qed.

Lemma trace_length (k : nat) :
  forall e : TestbenchEnv, List.length (trace dq0_to_abc k e) = k.
Proof. induction k as [|k IH]; intros e; simpl; [|rewrite IH]; reflexivity. Qed.

(** C9.  A [step] that returns changes the object only in [current_step],
    which grows by exactly one, and in [done], which is raised when the
    new cursor equals [max_episode_steps]; the telemetry buffer, the
    gains, every configuration attribute and the SSH client are as they
    were, and nothing is printed. *)
Theorem step_changes_cursor_and_done_only
    (w w' : world) (res : step_result) :
  step dq0_to_abc w = (w', Ok res) ->
  current_step (self w') = current_step (self w) + 1
  /\ done (self w') =
     (done (self w)
      || (current_step (self w) + 1 =? max_episode_steps (self w)))%bool
  /\ same_but_cursor_and_done (self w) (self w')
  /\ stdout w' = stdout w.
Proof.
  unfold step, bind, get_self, try_opt, modify_self, modify, ret, raise.
  destruct (getitem (data (self w)) (current_step (self w))) as [row|];
    [|discriminate].
  cbn [self stdout].
  destruct (getitem row 3); [|discriminate].
  destruct (getitem row 4); [|discriminate].
  destruct (getitem row 5); [|discriminate].
  destruct (getitem row 9); [|discriminate].
  cbn [self stdout current_step max_episode_steps set_current_step].
  destruct (current_step (self w) + 1 =? max_episode_steps (self w));
    intros H; inversion H; subst; clear H; cbn;
    rewrite ?orb_true_r, ?orb_false_r;
    unfold same_but_cursor_and_done; cbn; repeat split.
Qed.

Lemma decode_lines_wf (lines : list string) :
  forall (result : ndarray) (out out' : stdout_t) (table : ndarray),
    wf_data result ->
    decode_lines py_float lines result out = (out', Ok table) ->
    wf_data table.
Proof.
  induction lines as [|line lines IH]; intros result out out' table Hwf.
  - simpl. unfold ret. intros H. inversion H. now subst.
  - simpl. unfold bind at 1. unfold try_opt at 1.
    destruct (decode_utf8 line) as [s|]; [|discriminate].
    unfold ret at 1.
    destruct (List.length (split_comma s) =? 11)%nat eqn:E11.
    + unfold bind at 1. rewrite floats_of_convert_all.
      apply Nat.eqb_eq in E11.
      destruct (convert_all py_float (removelast (split_comma s)))
        as [floats|] eqn:Ef; [|discriminate].
      apply IH. apply Forall_app. split; [assumption|].
      constructor; [|constructor].
      rewrite (convert_all_length _ _ _ Ef).
      rewrite (pop_last_of_eleven _ _ E11), length_firstn, E11.
      reflexivity.
    + destruct (negb (List.length (split_comma s) =? 1)%nat).
      * unfold bind at 1, print, modify. now apply IH.
      * now apply IH.
Qed.

(** [reset] by cases on what the remote side does. *)
Lemma reset_by_cases (r : remote) (kP' kI' : npfloat) (w : world) :
  let e1 := set_kI kI' (set_kP kP' (self w)) in
  reset py_float r kP' kI' w =
  if connect r (host e1) (username e1) (password e1) then
    match exec_command r
            (mkCommand (executable_script_name e1) (max_episode_steps e1)
                       (kP e1) (kI e1) (i_ref e1) (f_nom e1)) with
    | Some raw =>
        match decode_result py_float raw (stdout w) with
        | (out, Ok table) =>
            (mkWorld
               (set_ssh_connected false
                  (set_done false
                     (set_current_step 0
                        (set_data table (set_ssh_connected true e1)))))
               out, Ok tt)
        | (out, Raise e) =>
            (mkWorld (set_ssh_connected true e1) out, Raise e)
        end
    | None =>
        (mkWorld (set_ssh_connected true e1) (stdout w),
         Raise SSHException)
    end
  else (mkWorld e1 (stdout w), Raise SSHException).
Proof.
  intros e1.
  unfold reset, bind, get_self, try_opt, modify_self, modify, ret, raise,
    on_stdout.
  cbn [self stdout]. fold e1.
  destruct (connect r (host e1) (username e1) (password e1));
    [|reflexivity].
  cbn [self stdout].
  destruct (exec_command r _) as [raw|]; [|reflexivity].
  cbn [self stdout].
  destruct (decode_result py_float raw (stdout w)) as [out [table|e]];
    reflexivity.
Qed.

(** A [reset] that returns has stored a decoded table of ten-column
    rows, with the cursor at zero and [done] lowered; the configuration
    is as before and the gains are the new ones. *)
Lemma reset_returns (r : remote) (kP' kI' : npfloat) (w w1 : world) :
  reset py_float r kP' kI' w = (w1, Ok tt) ->
  current_step (self w1) = 0
  /\ done (self w1) = false
  /\ wf_data (data (self w1))
  /\ max_episode_steps (self w1) = max_episode_steps (self w)
  /\ kP (self w1) = kP' /\ kI (self w1) = kI'.
Proof.
  rewrite reset_by_cases. cbv zeta.
  destruct (connect r _ _ _); [|discriminate].
  destruct (exec_command r _) as [raw|]; [|discriminate].
  destruct (decode_result py_float raw (stdout w)) as [out [table|e]] eqn:Ed;
    [|discriminate].
  intros H. inversion H; subst; clear H. cbn.
  repeat split.
  unfold decode_result in Ed.
  now apply (decode_lines_wf _ [] _ _ _ (Forall_nil _) Ed).
Qed.

End EpisodeFacts.

(* ================================================================== *)
(** ** Episodes: termination, buffer bounds, failed resets *)
(* ================================================================== *)

Section EpisodeTheorems.

Variable py_float : string -> option npfloat.
Variable dq0_to_abc : vec3 -> npfloat -> vec3.

Local Open Scope Z_scope.

(** C2, as the code has it.  After a [reset] that returns, the cursor is
    0 and [done] is lowered; if the buffer it decoded holds [L] rows and
    [1 <= N <= L] for [N = max_episode_steps], then exactly [L] calls of
    [step] succeed (a run of [k] calls returns if and only if [k <= L]),
    and the flag returned by call number [j + 1] is [N <= j + 1]: lowered
    on calls 1 to [N - 1], raised on call [N] and on every later call.
    With [L = N], exactly [N] calls succeed and only the last one returns
    a raised flag. *)
Theorem steps_after_reset
    (r : remote) (kP' kI' : npfloat) (w w1 : world) :
  reset py_float r kP' kI' w = (w1, Ok tt) ->
  1 <= max_episode_steps (self w1)
    <= Z.of_nat (List.length (data (self w1))) ->
  current_step (self w1) = 0
  /\ done (self w1) = false
  /\ (forall k : nat,
        (exists w2 rs, steps dq0_to_abc k w1 = (w2, Ok rs))
        <-> (k <= List.length (data (self w1)))%nat)
  /\ (forall (k : nat) (w2 : world) (rs : list step_result),
        steps dq0_to_abc k w1 = (w2, Ok rs) ->
        forall j : nat, (j < k)%nat ->
          nth_error (map flag_of rs) j =
          Some (max_episode_steps (self w1) <=? Z.of_nat (S j))).
Proof.
  intros Hreset HN.
  destruct (reset_returns py_float r kP' kI' w w1 Hreset)
    as [Hc [Hd [Hwf _]]].
  assert (Hiff : forall k : nat,
             (exists w2 rs, steps dq0_to_abc k w1 = (w2, Ok rs))
             <-> (k <= List.length (data (self w1)))%nat).
  { intros k. split.
    - intros [w2 [rs Hrun]].
      destruct (Nat.le_gt_cases k (List.length (data (self w1))))
        as [Hle|Hgt]; [assumption|exfalso].
      replace k with (List.length (data (self w1))
                      + S (k - S (List.length (data (self w1)))))%nat
        in Hrun by lia.
      rewrite steps_past_buffer in Hrun by (assumption || lia).
      discriminate.
    - intros Hle. do 2 eexists.
      apply steps_within_buffer; assumption || lia. }
  repeat split; try assumption; try apply Hiff.
  intros k w2 rs Hrun j Hj.
  assert (Hk : (k <= List.length (data (self w1)))%nat)
    by (apply Hiff; eauto).
  rewrite steps_within_buffer in Hrun by (assumption || lia).
  inversion Hrun; subst; clear Hrun.
  erewrite map_nth_error by (apply trace_nth; lia).
  cbn [flag_of]. rewrite iter_advance_done, Hc, Hd. f_equal.
  cbn [orb].
  destruct (Z.ltb_spec 0 (max_episode_steps (self w1))); [|lia].
  reflexivity.
Qed.

(** C7.  From a cursor at 0 over a buffer of [L] ten-column rows, with
    [N = max_episode_steps]: if [L < N], calls 1 to [L] succeed and call
    [L + 1], one of the [N] calls of the episode, reads past the end of
    the buffer and raises [IndexError], so a run of [N] calls raises it;
    if [N <= L], the first [N] calls all succeed and call [j + 1] returns
    the buffer row [j], which is in bounds. *)
Theorem short_buffer_raises_long_buffer_reads_in_bounds (w : world) :
  current_step (self w) = 0 ->
  wf_data (data (self w)) ->
  (Z.of_nat (List.length (data (self w))) < max_episode_steps (self w) ->
     exists w' rs,
       steps dq0_to_abc (List.length (data (self w))) w = (w', Ok rs)
       /\ current_step (self w') = Z.of_nat (List.length (data (self w)))
       /\ getitem (data (self w')) (current_step (self w')) = None
       /\ step dq0_to_abc w' = (w', Raise IndexError)
       /\ snd (steps dq0_to_abc (Z.to_nat (max_episode_steps (self w))) w)
          = Raise IndexError)
  /\ (max_episode_steps (self w) <= Z.of_nat (List.length (data (self w))) ->
      exists w' rs,
        steps dq0_to_abc (Z.to_nat (max_episode_steps (self w))) w
          = (w', Ok rs)
        /\ forall j : nat,
            (j < Z.to_nat (max_episode_steps (self w)))%nat ->
            (j < List.length (data (self w)))%nat
            /\ exists row,
                nth_error (data (self w)) j = Some row
                /\ nth_error (map row_read rs) j = Some row).
Proof.
  intros Hc Hwf. split.
  - intros Hshort.
    set (L := List.length (data (self w))) in *.
    exists (mkWorld (Nat.iter L advance (self w)) (stdout w)).
    exists (trace dq0_to_abc L (self w)).
    destruct (iter_advance_frame L (self w)) as [Hcur [Hdata _]].
    assert (Hpast : Z.of_nat (List.length (data (Nat.iter L advance (self w))))
                    <= current_step (Nat.iter L advance (self w)))
      by (rewrite Hcur, Hdata; fold L; lia).
    repeat split.
    + apply steps_within_buffer; assumption || (fold L; lia).
    + cbn [self]. rewrite Hcur. lia.
    + cbn [self]. now apply getitem_past_end.
    + now apply step_past_buffer.
    + replace (Z.to_nat (max_episode_steps (self w)))
        with (L + S (Z.to_nat (max_episode_steps (self w)) - S L))%nat
        by lia.
      rewrite steps_past_buffer by (assumption || (fold L; lia)).
      reflexivity.
  - intros Hlong.
    exists (mkWorld (Nat.iter (Z.to_nat (max_episode_steps (self w)))
                              advance (self w)) (stdout w)).
    exists (trace dq0_to_abc (Z.to_nat (max_episode_steps (self w)))
                  (self w)).
    split.
    + apply steps_within_buffer; assumption || lia.
    + intros j Hj.
      assert (Hjl : (j < List.length (data (self w)))%nat) by lia.
      split; [assumption|].
      exists (nth j (data (self w)) []). split.
      * now apply nth_error_nth'.
      * erewrite map_nth_error by (apply trace_nth; lia).
        cbn [row_read]. rewrite Hc. reflexivity.
Qed.

(** C10.  [reset] stores the new gains before it connects.  If the
    connection is refused, the remote execution fails or the decoder
    raises, [reset] raises, and whenever it raises the object holds the
    new [kP] and [kI] while [data], [current_step] and [done] are those
    from before the call. *)
Theorem failed_reset_keeps_new_gains_and_old_episode
    (r : remote) (kP' kI' : npfloat) (w : world) :
  let e1 := set_kI kI' (set_kP kP' (self w)) in
  let cmd := mkCommand (executable_script_name (self w))
                       (max_episode_steps (self w)) kP' kI'
                       (i_ref (self w)) (f_nom (self w)) in
  let after := reset py_float r kP' kI' w in
  (connect r (host (self w)) (username (self w)) (password (self w))
     = false -> snd after = Raise SSHException)
  /\ (connect r (host (self w)) (username (self w)) (password (self w))
        = true ->
      exec_command r cmd = None -> snd after = Raise SSHException)
  /\ (forall raw e,
        connect r (host (self w)) (username (self w)) (password (self w))
          = true ->
        exec_command r cmd = Some raw ->
        snd (decode_result py_float raw (stdout w)) = Raise e ->
        snd after = Raise e)
  /\ (forall e,
        snd after = Raise e ->
        kP (self (fst after)) = kP'
        /\ kI (self (fst after)) = kI'
        /\ data (self (fst after)) = data (self w)
        /\ current_step (self (fst after)) = current_step (self w)
        /\ done (self (fst after)) = done (self w)).
Proof.
  intros e1 cmd after. unfold after. rewrite reset_by_cases. cbv zeta.
  change (host (set_kI kI' (set_kP kP' (self w)))) with (host (self w)).
  change (username (set_kI kI' (set_kP kP' (self w))))
    with (username (self w)).
  change (password (set_kI kI' (set_kP kP' (self w))))
    with (password (self w)).
  change (mkCommand _ _ _ _ _ _) with cmd.
  destruct (connect r (host (self w)) (username (self w))
                    (password (self w))).
  - destruct (exec_command r cmd) as [raw|].
    + destruct (decode_result py_float raw (stdout w))
        as [out [table|e0]] eqn:Ed.
      * repeat split; try discriminate.
        intros raw' e Hc Hraw Hdec. inversion Hraw; subst.
        rewrite Ed in Hdec. discriminate.
      * repeat split; try discriminate.
        intros raw' e Hc Hraw Hdec. inversion Hraw; subst.
        rewrite Ed in Hdec. cbn [snd] in *. now inversion Hdec.
    + repeat split; try discriminate.
  - repeat split; try discriminate.
Qed.

End EpisodeTheorems.

Section TrackingScenario.

Variable dq0_to_abc : vec3 -> npfloat -> vec3.

Lemma phase_error_zero_iff (L s m : R) :
  (0 < L)%R -> (phase_error L s m = 0 <-> s = m)%R.
Proof.
  intros HL. unfold phase_error. split.
  - intros H.
    assert (H0 : (0 <= Rabs (s - m) / L)%R).
    { apply Rmult_le_pos; [apply Rabs_pos|].
      left. now apply Rinv_0_lt_compat. }
    apply sqrt_eq_0 in H; [|assumption].
    assert (Hz : Rabs (s - m) = 0%R).
    { apply (Rmult_eq_reg_r (/ L)); [|apply Rinv_neq_0_compat; lra].
      unfold Rdiv in H. lra. }
    destruct (Req_dec (s - m) 0) as [E|E]; [lra|].
    apply Rabs_no_R0 in E. contradiction.
  - intros ->. unfold Rminus. rewrite Rplus_opp_r, Rabs_R0.
    unfold Rdiv. rewrite Rmult_0_l. apply sqrt_0.
Qed.

(** The reward of a row of the tracking scenario. *)
Lemma scenario_reward (e : TestbenchEnv) (n L a b c : R)
    (row : list npfloat) :
  i_ref e = Fin 10 -> i_nominal e = Fin n -> i_limit e = Fin L ->
  (10 <= n < L)%R ->
  dq0_to_abc (V3 (Fin 10) (Fin 0) (Fin 0)) (Fin 0) = fin3 a b c ->
  scenario_row row ->
  step_reward dq0_to_abc e row =
  Fin (- (phase_error L a 10 + phase_error L b 10 + phase_error L c 10)).
Proof.
  intros Hr Hn HL Hlt Hsp [_ [H3 [H4 [H5 H9]]]].
  unfold step_reward. rewrite H3, H4, H5, H9, Hr.
  assert (Habs : (Rabs 10 < L)%R) by (rewrite Rabs_pos_eq; lra).
  change (V3 (Fin 10) (Fin 10) (Fin 10)) with (fin3 10 10 10).
  rewrite (rew_fun_fin dq0_to_abc e L n a b c 10 10 10) by (assumption || lra).
  rewrite !phase_barrier_zero by (rewrite ?Rabs_pos_eq; lra).
  f_equal. ring.
Qed.

(** The run of the tracking scenario, for any set-point transform. *)
Lemma scenario_run (w : world) (n L a b c : R) :
  i_ref (self w) = Fin 10 ->
  max_episode_steps (self w) = 3%Z ->
  current_step (self w) = 0%Z ->
  done (self w) = false ->
  i_nominal (self w) = Fin n -> i_limit (self w) = Fin L ->
  (10 <= n < L)%R ->
  List.length (data (self w)) = 3%nat ->
  Forall scenario_row (data (self w)) ->
  dq0_to_abc (V3 (Fin 10) (Fin 0) (Fin 0)) (Fin 0) = fin3 a b c ->
  let rho :=
    (- (phase_error L a 10 + phase_error L b 10 + phase_error L c 10))%R in
  exists w' rs,
    steps dq0_to_abc 3 w = (w', Ok rs)
    /\ map flag_of rs = [false; false; true]
    /\ map reward_of rs = [Fin rho; Fin rho; Fin rho]
    /\ map row_read rs = data (self w).
Proof.
  intros Hr HN Hc Hd Hn HL Hlt Hlen Hrows Hsp rho.
  assert (Hwf : wf_data (data (self w))).
  { unfold wf_data. eapply Forall_impl; [|exact Hrows].
    intros row [Hten _]. exact Hten. }
  exists (mkWorld (Nat.iter 3 advance (self w)) (stdout w)).
  exists (trace dq0_to_abc 3 (self w)).
  split; [apply steps_within_buffer; rewrite ?Hc, ?Hlen; (assumption || lia)|].
  destruct (data (self w)) as [|row0 [|row1 [|row2 [|]]]] eqn:Edata;
    try discriminate.
  inversion Hrows as [|? ? S0 Hrows1]; subst.
  inversion Hrows1 as [|? ? S1 Hrows2]; subst.
  inversion Hrows2 as [|? ? S2 _]; subst.
  assert (T0 := trace_nth dq0_to_abc 3 (self w) 0 ltac:(lia) ltac:(lia)).
  assert (T1 := trace_nth dq0_to_abc 3 (self w) 1 ltac:(lia) ltac:(lia)).
  assert (T2 := trace_nth dq0_to_abc 3 (self w) 2 ltac:(lia) ltac:(lia)).
  rewrite iter_advance_done, Hc, Hd, HN, Edata in T0, T1, T2.
  change (nth (Z.to_nat 0 + 0) [row0; row1; row2] []) with row0 in T0.
  change (nth (Z.to_nat 0 + 1) [row0; row1; row2] []) with row1 in T1.
  change (nth (Z.to_nat 0 + 2) [row0; row1; row2] []) with row2 in T2.
  change (false || (0 <? 3)%Z && (3 <=? 0 + Z.of_nat 1)%Z)%bool
    with false in T0.
  change (false || (0 <? 3)%Z && (3 <=? 0 + Z.of_nat 2)%Z)%bool
    with false in T1.
  change (false || (0 <? 3)%Z && (3 <=? 0 + Z.of_nat 3)%Z)%bool
    with true in T2.
  rewrite (scenario_reward (self w) n L a b c row0) in T0 by assumption.
  rewrite (scenario_reward (self w) n L a b c row1) in T1 by assumption.
  rewrite (scenario_reward (self w) n L a b c row2) in T2 by assumption.
  pose proof (trace_length dq0_to_abc 3 (self w)) as Tl.
  destruct (trace dq0_to_abc 3 (self w)) as [|r0 [|r1 [|r2 [|]]]];
    try discriminate.
  cbn [nth_error] in T0, T1, T2.
  inversion T0; inversion T1; inversion T2; subst.
  repeat split.
Qed.

(** C5, as the code has it.  On a buffer of three rows whose phase
    currents are all 10 and whose phase angle is 0, with [i_ref = 10],
    [max_episode_steps = 3] and [10 <= i_nominal < i_limit], the three
    calls of [step] succeed, return the three rows with the flags
    [False, False, True], and each returns the reward
    [-(sqrt(|a - 10| / i_limit) + sqrt(|b - 10| / i_limit)
       + sqrt(|c - 10| / i_limit))]
    where [(a, b, c)] is the three-phase set point
    [dq0_to_abc((10, 0, 0), 0)]; the barrier term is zero.  That reward
    is 0 exactly when the set point is [(10, 10, 10)]. *)
Theorem tracking_scenario_flags_and_reward
    (w : world) (n L a b c : R) :
  i_ref (self w) = Fin 10 ->
  max_episode_steps (self w) = 3%Z ->
  current_step (self w) = 0%Z ->
  done (self w) = false ->
  i_nominal (self w) = Fin n -> i_limit (self w) = Fin L ->
  (10 <= n < L)%R ->
  List.length (data (self w)) = 3%nat ->
  Forall scenario_row (data (self w)) ->
  dq0_to_abc (V3 (Fin 10) (Fin 0) (Fin 0)) (Fin 0) = fin3 a b c ->
  let rho :=
    (- (phase_error L a 10 + phase_error L b 10 + phase_error L c 10))%R in
  (exists w' rs,
      steps dq0_to_abc 3 w = (w', Ok rs)
      /\ map flag_of rs = [false; false; true]
      /\ map reward_of rs = [Fin rho; Fin rho; Fin rho]
      /\ map row_read rs = data (self w))
  /\ (rho = 0 <-> a = 10 /\ b = 10 /\ c = 10)%R.
Proof.
  intros Hr HN Hc Hd Hn HL Hlt Hlen Hrows Hsp rho.
  assert (HL0 : (0 < L)%R) by lra.
  split.
  - now apply scenario_run with (n := n).
  - unfold rho.
    pose proof (phase_error_nonneg L a 10).
    pose proof (phase_error_nonneg L b 10).
    pose proof (phase_error_nonneg L c 10).
    split.
    + intros Hz.
      assert (phase_error L a 10 = 0)%R by lra.
      assert (phase_error L b 10 = 0)%R by lra.
      assert (phase_error L c 10 = 0)%R by lra.
      repeat split; now apply (phase_error_zero_iff L _ 10 HL0).
    + intros [-> [-> ->]].
      replace (phase_error L 10 10) with 0%R
        by (symmetry; now apply phase_error_zero_iff).
      lra.
Qed.

End TrackingScenario.

(* ================================================================== *)
(** ** The theorems on concrete inputs *)
(* ================================================================== *)

(** The inverse Park transform of the set point [(10, 0, 0)] at angle 0:
    a balanced three-phase set, not [(10, 10, 10)]. *)
Lemma inverse_park_at_zero :
  inverse_park (V3 (Fin 10) (Fin 0) (Fin 0)) (Fin 0) = fin3 10 (-5) (-5).
Proof.
  unfold inverse_park, fin3, np_cos, np_sin.
  cbn [add sub neg mul v_a v_b v_c].
  rewrite !Rplus_0_l, cos_0, sin_0, cos_neg, sin_neg, cos_2PI3.
  f_equal; f_equal; lra.
Qed.

Lemma decode_scenario_lines (rows : nat) (result : ndarray)
    (out : stdout_t) :
  decode_lines float_of_literal
    (repeat "0,0,0,10,10,10,0,0,0,0," rows) result out
  = (out, Ok (result ++ repeat scenario_values rows)).
Proof.
  revert result. induction rows as [|rows IH]; intros result.
  - simpl. now rewrite app_nil_r.
  - cbn [repeat decode_lines].
    unfold bind at 1. unfold try_opt at 1.
    change (decode_utf8 "0,0,0,10,10,10,0,0,0,0,")
      with (Some "0,0,0,10,10,10,0,0,0,0,"). cbn [ret].
    change (List.length (split_comma "0,0,0,10,10,10,0,0,0,0,") =? 11)%nat
      with true. cbv iota.
    unfold bind at 1.
    rewrite floats_of_convert_all.
    change (convert_all float_of_literal
              (removelast (split_comma "0,0,0,10,10,10,0,0,0,0,")))
      with (Some scenario_values).
    cbv iota. rewrite IH. now rewrite <- app_assoc.
Qed.

Lemma scenario_world_rows (n : Z) (rows : nat) :
  current_step (self (scenario_world n rows)) = 0%Z
  /\ wf_data (data (self (scenario_world n rows)))
  /\ Forall scenario_row (data (self (scenario_world n rows)))
  /\ List.length (data (self (scenario_world n rows))) = rows.
Proof.
  cbn [scenario_world self set_data data current_step default_env init].
  repeat split.
  - apply Forall_forall. intros row Hin. apply repeat_spec in Hin.
    now subst.
  - apply Forall_forall. intros row Hin. apply repeat_spec in Hin.
    subst. repeat split.
  - apply repeat_length.
Qed.

Lemma reset_scenario (n : Z) (rows : nat) (raw : string)
    (kP' kI' : npfloat) :
  splitlines raw = repeat "0,0,0,10,10,10,0,0,0,0," rows ->
  reset float_of_literal (remote_printing raw) kP' kI'
        (mkWorld (default_env n) [])
  = (mkWorld
       (set_ssh_connected false
          (set_done false
             (set_current_step 0
                (set_data (repeat scenario_values rows)
                   (set_ssh_connected true
                      (set_kI kI' (set_kP kP' (default_env n)))))))) [],
     Ok tt).
Proof.
  intros Hlines. rewrite reset_by_cases. cbv zeta.
  cbn [remote_printing connect exec_command stdout].
  unfold decode_result. rewrite Hlines, decode_scenario_lines.
  reflexivity.
Qed.

Lemma wf_scenario_rows (rows : nat) : wf_data (repeat scenario_values rows).
Proof.
  apply Forall_forall. intros row Hin. apply repeat_spec in Hin. now subst.
Qed.

Lemma Rabs_of_nonneg_le (x r : R) : (0 <= x <= r)%R -> (Rabs x <= r)%R.
Proof. intros H. rewrite Rabs_pos_eq; lra. Qed.

Lemma Rabs_of_nonpos_le (x r : R) : (- r <= x <= 0)%R -> (Rabs x <= r)%R.
Proof. intros H. rewrite Rabs_left1; lra. Qed.

(** C1 on [sample_text]: the record gives the only row, the two-token
    line is printed, the bare word is skipped. *)
Lemma decode_result_rows_in_line_order_witness :
  exists table,
    decode_result float_of_literal sample_text []
      = ([["hello"; "world"]], Ok table)
    /\ Forall2 (fun row line => row_of float_of_literal line = Some row)
               table ["10,10,10,10,10,10,10,10,10,10,"]
    /\ wf_data table.
Proof.
  destruct (decode_result_rows_in_line_order float_of_literal sample_text [])
    as [table [Hrun [Hrows [Hwf _]]]].
  - intros line Hin. vm_compute in Hin.
    decompose [or] Hin; subst; try contradiction;
      intros Hx; vm_compute in Hx; discriminate Hx.
  - intros line Hin Hrec. vm_compute in Hin.
    decompose [or] Hin; subst; try contradiction;
      try (vm_compute in Hrec; discriminate Hrec).
    intros Hx. cbv - [IZR] in Hx. discriminate Hx.
  - exists table. split; [exact Hrun|]. split; [exact Hrows|exact Hwf].
Defined.

(** C2 fails on the code: with [max_episode_steps = 1] and a remote run
    that prints two records, [reset] returns and two calls of [step]
    succeed, and the second one, which is not call number 1, returns a
    raised flag as well. *)
Lemma steps_continue_after_done :
  exists w1 w2 rs,
    reset float_of_literal (remote_printing (scenario_line ++ scenario_line))
          (Fin 0) (Fin 0) (mkWorld (default_env 1) []) = (w1, Ok tt)
    /\ max_episode_steps (self w1) = 1%Z
    /\ steps inverse_park 2 w1 = (w2, Ok rs)
    /\ map flag_of rs = [true; true].
Proof.
  do 3 eexists.
  split; [apply (reset_scenario 1 2); reflexivity|].
  split; [reflexivity|].
  split.
  - apply steps_within_buffer; cbn; try lia. apply (wf_scenario_rows 2).
  - reflexivity.
Qed.

(** C2, as the code has it, on a run with [max_episode_steps = 2] that
    prints three records. *)
Lemma steps_after_reset_witness :
  exists w1,
    reset float_of_literal
          (remote_printing (scenario_line ++ scenario_line ++ scenario_line))
          (Fin 0) (Fin 0) (mkWorld (default_env 2) []) = (w1, Ok tt)
    /\ (forall k : nat,
          (exists w2 rs, steps inverse_park k w1 = (w2, Ok rs))
          <-> (k <= 3)%nat)
    /\ (forall k w2 rs,
          steps inverse_park k w1 = (w2, Ok rs) ->
          forall j : nat, (j < k)%nat ->
            nth_error (map flag_of rs) j = Some (2 <=? Z.of_nat (S j))%Z).
Proof.
  eexists.
  pose proof (reset_scenario 2 3
                (scenario_line ++ scenario_line ++ scenario_line)
                (Fin 0) (Fin 0) eq_refl) as Hreset.
  split; [exact Hreset|].
  apply (steps_after_reset float_of_literal inverse_park _ _ _ _ _ Hreset).
  cbn. lia.
Defined.

Lemma forall_phases (P : npfloat -> Prop) (a b c : npfloat) :
  P a -> P b -> P c -> Forall P (phases (V3 a b c)).
Proof. intros Ha Hb Hc. unfold phases. simpl. auto. Qed.

(** C3 with the default limits (nominal 20, limit 30) and 1000 steps:
    at the balanced set point the reward is the negated tracking term;
    below every bound near the limit; not finite at the limit. *)
Lemma barrier_zero_diverging_nonfinite_witness :
  rew_fun inverse_park (default_env 1000) (fin3 10 (-5) (-5))
          (V3 (Fin 10) (Fin 0) (Fin 0)) (Fin 0)
    = neg (tracking_term (Fin 30)
             (inverse_park (V3 (Fin 10) (Fin 0) (Fin 0)) (Fin 0))
             (fin3 10 (-5) (-5)))
  /\ (exists delta, (0 < delta <= 10)%R /\
        forall x : R, (30 - delta < x < 30)%R ->
          exists rho,
            rew_fun inverse_park (default_env 1000) (fin3 x 0 0)
                    (V3 (Fin 10) (Fin 0) (Fin 0)) (Fin 0) = Fin rho
            /\ (rho < - 1000000)%R)
  /\ ~ is_finite (rew_fun inverse_park (default_env 1000) (fin3 30 0 0)
                          (V3 (Fin 10) (Fin 0) (Fin 0)) (Fin 0)).
Proof.
  destruct (barrier_zero_diverging_nonfinite inverse_park
              (default_env 1000) 20 30 eq_refl eq_refl
              ltac:(lra)) as [P1 [P2 P3]].
  specialize (P2 ltac:(cbn; lia)).
  split; [|split].
  - apply P1. apply forall_phases; cbn [mag_le].
    + apply Rabs_of_nonneg_le; lra.
    + apply Rabs_of_nonpos_le; lra.
    + apply Rabs_of_nonpos_le; lra.
  - destruct (P2 (- 1000000)%R) as [delta [Hd Hnear]].
    exists delta. split; [lra|].
    intros x Hx. apply Hnear.
    + rewrite inverse_park_at_zero.
      apply forall_phases; exact I.
    + apply forall_phases; cbn [mag_lt];
        rewrite ?Rabs_R0; rewrite ?Rabs_pos_eq; lra.
    + unfold phases, fin3; cbn [v_a v_b v_c].
      apply Exists_cons_hd. cbn [mag_gt]. rewrite Rabs_pos_eq; lra.
  - apply P3. unfold phases, fin3; cbn [v_a v_b v_c].
    apply Exists_cons_hd. cbn [mag_ge]. rewrite Rabs_pos_eq; lra.
Defined.



(** C4 as claimed fails on the numbers the code computes with.  Against
    the set point 10 and the limits 30 and 20, the phase currents 19.5
    and 19.500000000000004 have different absolute errors (9.5 and
    9.500000000000004), but the square roots of error over limit round
    to the same binary64 number: the two rewards are equal, whatever the
    other two phases measure, the step count, [np.log] and the order of
    [np.sum]. *)
Lemma reward_ties_in_binary64 :
  PrimFloat.ltb (PrimFloat.abs (PrimFloat.sub 10 19.5))
                (PrimFloat.abs (PrimFloat.sub 10 above_19_5)) = true
  /\ PrimFloat.leb (PrimFloat.abs 19.5) 20 = true
  /\ PrimFloat.leb (PrimFloat.abs above_19_5) 20 = true
  /\ (forall (log64 : float -> float) (sum64 : vec64 -> float)
             (float_of_int : Z -> float)
             (dq0_to_abc64 : vec64 -> float -> vec64)
             (sp : vec64) (ph b c m2 m3 : float) (N : Z),
        dq0_to_abc64 sp ph = V64 10 b c ->
        rew_fun64 log64 sum64 float_of_int dq0_to_abc64 30 20 N
                  (V64 above_19_5 m2 m3) sp ph
        = rew_fun64 log64 sum64 float_of_int dq0_to_abc64 30 20 N
                    (V64 19.5 m2 m3) sp ph).
Proof.
  split; [vm_compute; reflexivity|].
  split; [vm_compute; reflexivity|].
  split; [vm_compute; reflexivity|].
  intros log64 sum64 float_of_int dq0_to_abc64 sp ph b c m2 m3 N Hsp.
  unfold rew_fun64. rewrite Hsp.
  cbn [vmap64 vmap2_64 f_a f_b f_c].
  replace (PrimFloat.sqrt
             (PrimFloat.div
                (PrimFloat.abs (PrimFloat.sub 10 above_19_5)) 30))
    with (PrimFloat.sqrt
            (PrimFloat.div (PrimFloat.abs (PrimFloat.sub 10 19.5)) 30))
    by (vm_compute; reflexivity).
  replace (maximum64 (PrimFloat.sub (PrimFloat.abs above_19_5) 20) 0)
    with (maximum64 (PrimFloat.sub (PrimFloat.abs 19.5) 20) 0)
    by (vm_compute; reflexivity).
  reflexivity.
Qed.

(** C4 with the default limits: a phase current of 12 against a set
    point of 10 earns no more than perfect tracking. *)
Lemma reward_not_higher_for_larger_tracking_error_witness :
  np_le (rew_fun inverse_park (default_env 1000) (fin3 12 (-5) (-5))
                 (V3 (Fin 10) (Fin 0) (Fin 0)) (Fin 0))
        (rew_fun inverse_park (default_env 1000) (fin3 10 (-5) (-5))
                 (V3 (Fin 10) (Fin 0) (Fin 0)) (Fin 0)).
Proof.
  apply (reward_not_higher_for_larger_tracking_error inverse_park
           (default_env 1000) 20 30 (V3 (Fin 10) (Fin 0) (Fin 0)) (Fin 0)
           10 (-5) (-5) 10 (-5) (-5) 12 (-5) (-5)).
  - reflexivity.
  - reflexivity.
  - lra.
  - unfold int64_range. cbn [default_env init max_episode_steps]. lia.
  - exact inverse_park_at_zero.
  - apply Rabs_of_nonneg_le; lra.
  - apply Rabs_of_nonpos_le; lra.
  - apply Rabs_of_nonpos_le; lra.
  - apply Rabs_of_nonneg_le; lra.
  - apply Rabs_of_nonpos_le; lra.
  - apply Rabs_of_nonpos_le; lra.
  - replace (10 - 10)%R with 0%R by lra. rewrite Rabs_R0. apply Rabs_pos.
  - apply Rle_refl.
  - apply Rle_refl.
Defined.

(** C5 fails on the code once the set point is the inverse Park
    transform of [(10, 0, 0)] at angle 0, which is [(10, -5, -5)]: on
    the three-row buffer with default limits every [step] returns the
    same reward, and it is below -1. *)
Lemma tracking_scenario_reward_is_not_zero :
  exists w' rs rho,
    steps inverse_park 3 (scenario_world 3 3) = (w', Ok rs)
    /\ map flag_of rs = [false; false; true]
    /\ map reward_of rs = [Fin rho; Fin rho; Fin rho]
    /\ (rho < - 1)%R.
Proof.
  destruct (scenario_world_rows 3 3) as [Hc [_ [Hrows Hlen]]].
  destruct (scenario_run inverse_park (scenario_world 3 3) 20 30
              10 (-5) (-5) eq_refl eq_refl Hc eq_refl eq_refl eq_refl
              ltac:(lra) Hlen Hrows inverse_park_at_zero)
    as [w' [rs [Hrun [Hflags [Hrew _]]]]].
  exists w', rs. eexists. repeat split; try eassumption.
  assert (Hhalf : (/ 2 < phase_error 30 (-5) 10)%R).
  { unfold phase_error.
    replace (Rabs (-5 - 10) / 30)%R with (/ 2)%R
      by (rewrite Rabs_left; lra).
    rewrite <- (sqrt_square (/ 2)) at 1 by lra.
    apply sqrt_lt_1_alt. lra. }
  pose proof (phase_error_nonneg 30 10 10).
  lra.
Qed.

(** C5, as the code has it, for a transform that does return
    [(10, 10, 10)]: every reward is 0 and the flags are
    [False, False, True]. *)
Lemma tracking_scenario_flags_and_reward_witness :
  exists w' rs,
    steps (fun _ _ => fin3 10 10 10) 3 (scenario_world 3 3) = (w', Ok rs)
    /\ map flag_of rs = [false; false; true]
    /\ map reward_of rs = [Fin 0; Fin 0; Fin 0].
Proof.
  destruct (scenario_world_rows 3 3) as [Hc [_ [Hrows Hlen]]].
  destruct (tracking_scenario_flags_and_reward (fun _ _ => fin3 10 10 10)
              (scenario_world 3 3) 20 30
              10 10 10 eq_refl eq_refl Hc eq_refl eq_refl eq_refl
              ltac:(lra) Hlen Hrows eq_refl)
    as [[w' [rs [Hrun [Hflags [Hrew _]]]]] [_ Hzero]].
  exists w', rs. repeat split; try assumption.
  rewrite Hrew. rewrite Hzero by (repeat split; reflexivity).
  reflexivity.
Defined.

(** C6 with the default limits, a phase current of 25 and the balanced
    set point: the same tracking term [T] and barrier [B] give the reward
    [-(T + B)] for one step per episode and [-(T + 1000 B)] for 1000. *)
Lemma barrier_scaled_by_steps_tracking_unscaled_witness :
  exists T B : R,
    tracking_term (Fin 30)
      (inverse_park (V3 (Fin 10) (Fin 0) (Fin 0)) (Fin 0)) (fin3 25 0 0)
      = Fin T
    /\ barrier_term (Fin 30) (Fin 20) (fin3 25 0 0) = Fin B
    /\ rew_fun inverse_park (with_steps 1 (default_env 7)) (fin3 25 0 0)
               (V3 (Fin 10) (Fin 0) (Fin 0)) (Fin 0)
       = Fin (- (T + B * 1))
    /\ rew_fun inverse_park (with_steps 1000 (default_env 7)) (fin3 25 0 0)
               (V3 (Fin 10) (Fin 0) (Fin 0)) (Fin 0)
       = Fin (- (T + B * 1000)).
Proof.
  assert (HT : tracking_term (Fin 30)
                 (inverse_park (V3 (Fin 10) (Fin 0) (Fin 0)) (Fin 0))
                 (fin3 25 0 0)
               = Fin (phase_error 30 10 25 + phase_error 30 (-5) 0
                      + phase_error 30 (-5) 0)).
  { rewrite inverse_park_at_zero. apply tracking_term_fin. lra. }
  assert (HB : barrier_term (Fin 30) (Fin 20) (fin3 25 0 0)
               = Fin (- (phase_barrier 30 20 25 + phase_barrier 30 20 0
                         + phase_barrier 30 20 0))).
  { apply barrier_term_fin; rewrite ?Rabs_R0; rewrite ?Rabs_pos_eq; lra. }
  destruct (barrier_scaled_by_steps_tracking_unscaled inverse_park
              (default_env 7) (fin3 25 0 0)
              (V3 (Fin 10) (Fin 0) (Fin 0)) (Fin 0)) as [_ Hscaled].
  do 2 eexists. split; [exact HT|]. split; [exact HB|].
  split; [exact (Hscaled _ _ HT HB 1%Z)|exact (Hscaled _ _ HT HB 1000%Z)].
Defined.

(** C7 on a one-row buffer with three steps per episode (the second call
    raises) and on a three-row buffer (the three calls read the three
    rows). *)
Lemma short_buffer_raises_long_buffer_reads_in_bounds_witness :
  (exists w' rs,
      steps inverse_park 1 (scenario_world 3 1) = (w', Ok rs)
      /\ step inverse_park w' = (w', Raise IndexError)
      /\ snd (steps inverse_park 3 (scenario_world 3 1)) = Raise IndexError)
  /\ (exists w' rs,
        steps inverse_park 3 (scenario_world 3 3) = (w', Ok rs)
        /\ forall j : nat, (j < 3)%nat ->
             (j < 3)%nat
             /\ exists row,
                 nth_error (repeat scenario_values 3) j = Some row
                 /\ nth_error (map row_read rs) j = Some row).
Proof.
  split.
  - destruct (scenario_world_rows 3 1) as [Hc [Hwf _]].
    destruct (short_buffer_raises_long_buffer_reads_in_bounds inverse_park
                (scenario_world 3 1) Hc Hwf) as [Hshort _].
    destruct Hshort as [w' [rs [Hrun [_ [_ [Hstep Hall]]]]]];
      [cbn; lia|].
    exists w', rs. split; [exact Hrun|]. split; [exact Hstep|exact Hall].
  - destruct (scenario_world_rows 3 3) as [Hc [Hwf _]].
    destruct (short_buffer_raises_long_buffer_reads_in_bounds inverse_park
                (scenario_world 3 3) Hc Hwf) as [_ Hlong].
    apply Hlong. cbn. lia.
Defined.

(** C9 on the first [step] over a three-row buffer. *)
Lemma step_changes_cursor_and_done_only_witness :
  exists w' res,
    step inverse_park (scenario_world 3 3) = (w', Ok res)
    /\ current_step (self w') = 1%Z
    /\ done (self w') = false
    /\ same_but_cursor_and_done (self (scenario_world 3 3)) (self w')
    /\ stdout w' = [].
Proof.
  destruct (scenario_world_rows 3 3) as [Hc [Hwf _]].
  pose proof (step_reads_row inverse_park (scenario_world 3 3)
                ltac:(cbn; lia) Hwf) as Hstep.
  do 2 eexists. split; [exact Hstep|].
  exact (step_changes_cursor_and_done_only inverse_park _ _ _ Hstep).
Defined.

(** C10 on an unreachable host and on a run that prints a record whose
    fields are not numbers: [reset] raises with the new gains stored and
    the episode of before untouched. *)
Lemma failed_reset_keeps_new_gains_and_old_episode_witness :
  (let after := reset float_of_literal remote_unreachable (Fin 1) (Fin 2)
                      (scenario_world 3 3) in
   snd after = Raise SSHException
   /\ kP (self (fst after)) = Fin 1 /\ kI (self (fst after)) = Fin 2
   /\ data (self (fst after)) = repeat scenario_values 3
   /\ current_step (self (fst after)) = 0%Z
   /\ done (self (fst after)) = false)
  /\ (let after := reset float_of_literal
                         (remote_printing "a,b,c,d,e,f,g,h,i,j,")
                         (Fin 1) (Fin 2) (scenario_world 3 3) in
      snd after = Raise ValueError
      /\ kP (self (fst after)) = Fin 1 /\ kI (self (fst after)) = Fin 2
      /\ data (self (fst after)) = repeat scenario_values 3
      /\ current_step (self (fst after)) = 0%Z
      /\ done (self (fst after)) = false).
Proof.
  split.
  - destruct (failed_reset_keeps_new_gains_and_old_episode float_of_literal
                remote_unreachable (Fin 1) (Fin 2) (scenario_world 3 3))
      as [Hconn [_ [_ Hkeep]]].
    cbv zeta. split; [exact (Hconn eq_refl)|].
    exact (Hkeep _ (Hconn eq_refl)).
  - destruct (failed_reset_keeps_new_gains_and_old_episode float_of_literal
                (remote_printing "a,b,c,d,e,f,g,h,i,j,")
                (Fin 1) (Fin 2) (scenario_world 3 3))
      as [_ [_ [Hdec Hkeep]]].
    assert (Hraise : snd (reset float_of_literal
                            (remote_printing "a,b,c,d,e,f,g,h,i,j,")
                            (Fin 1) (Fin 2) (scenario_world 3 3))
                     = Raise ValueError)
      by (apply (Hdec "a,b,c,d,e,f,g,h,i,j,"); reflexivity).
    cbv zeta. split; [exact Hraise|].
    exact (Hkeep _ Hraise).
Defined.

(* ================================================================== *)
(** ** More on the decoder: token counts, errors, chunks, round trip *)
(* ================================================================== *)

Section DecoderMore.

Variable py_float : string -> option npfloat.

Lemma split_comma_counts (s : string) :
  List.length (split_comma s) = S (count_commas s).
Proof.
  induction s as [|c s IH]; simpl; [reflexivity|].
  destruct (Ascii.eqb c COMMA); simpl; [now rewrite IH|].
  destruct (split_comma s); simpl in *; lia.
Qed.

Lemma line_decodes_ok (line : string) :
  line_decodes py_float line = true ->
  decode_utf8 line <> None
  /\ (is_record line = true -> row_of py_float line <> None).
Proof.
  unfold line_decodes.
  destruct (decode_utf8 line); [|discriminate].
  destruct (is_record line).
  - destruct (row_of py_float line); [|discriminate].
    intros _. split; [discriminate|]. intros _. discriminate.
  - intros _. split; discriminate.
Qed.

Lemma all_lines_decode (lines : list string) :
  forallb (line_decodes py_float) lines = true ->
  (forall line, In line lines -> decode_utf8 line <> None)
  /\ (forall line, In line lines -> is_record line = true ->
                   row_of py_float line <> None).
Proof.
  intros H. rewrite forallb_forall in H.
  split; intros line Hin; now apply line_decodes_ok, H.
Qed.

(** One turn of the loop. *)
Lemma decode_lines_cons (line : string) (lines : list string)
    (result : ndarray) (out : stdout_t) :
  decode_lines py_float (line :: lines) result out =
  match decode_utf8 line with
  | None => (out, Raise UnicodeDecodeError)
  | Some s =>
      if (List.length (split_comma s) =? 11)%nat then
        match convert_all py_float (removelast (split_comma s)) with
        | Some floats => decode_lines py_float lines (result ++ [floats]) out
        | None => (out, Raise ValueError)
        end
      else if negb (List.length (split_comma s) =? 1)%nat then
        decode_lines py_float lines result (out ++ [split_comma s])
      else decode_lines py_float lines result out
  end.
Proof.
  cbn [decode_lines]. unfold bind at 1. unfold try_opt at 1.
  destruct (decode_utf8 line) as [s|]; [|reflexivity].
  cbn [ret].
  destruct (List.length (split_comma s) =? 11)%nat.
  - unfold bind at 1. rewrite floats_of_convert_all.
    destruct (convert_all py_float (removelast (split_comma s)));
      reflexivity.
  - destruct (negb (List.length (split_comma s) =? 1)%nat); reflexivity.
Qed.

(** The loop over [l1 ++ l2] is the loop over [l1] followed by the loop
    over [l2]. *)
Lemma decode_lines_app (l1 l2 : list string) :
  forall (result : ndarray) (out : stdout_t),
    decode_lines py_float (l1 ++ l2) result out =
    match decode_lines py_float l1 result out with
    | (out1, Ok t1) => decode_lines py_float l2 t1 out1
    | (out1, Raise e) => (out1, Raise e)
    end.
Proof.
  induction l1 as [|line l1 IH]; intros result out; [reflexivity|].
  rewrite <- app_comm_cons, !decode_lines_cons.
  destruct (decode_utf8 line) as [s|]; [|reflexivity].
  destruct (List.length (split_comma s) =? 11)%nat.
  - destruct (convert_all py_float (removelast (split_comma s)));
      [apply IH|reflexivity].
  - destruct (negb (List.length (split_comma s) =? 1)%nat); apply IH.
Qed.

(** The rows already collected only come first in the table. *)
Lemma decode_lines_from (lines : list string) :
  forall (result : ndarray) (out : stdout_t),
    decode_lines py_float lines result out =
    match decode_lines py_float lines [] out with
    | (out1, Ok t) => (out1, Ok (result ++ t))
    | (out1, Raise e) => (out1, Raise e)
    end.
Proof.
  induction lines as [|line lines IH]; intros result out.
  - simpl. unfold ret. now rewrite app_nil_r.
  - rewrite !decode_lines_cons.
    destruct (decode_utf8 line) as [s|]; [|reflexivity].
    destruct (List.length (split_comma s) =? 11)%nat.
    + destruct (convert_all py_float (removelast (split_comma s)))
        as [floats|]; [|reflexivity].
      rewrite (IH (result ++ [floats])), (IH ([] ++ [floats])).
      destruct (decode_lines py_float lines [] out) as [out1 [t|e]];
        [|reflexivity].
      now rewrite <- app_assoc.
    + destruct (negb (List.length (split_comma s) =? 1)%nat); apply IH.
Qed.

(** A line that does not decode stops the loop with its exception. *)
Lemma decode_lines_stops (bad : string) (rest : list string)
    (result : ndarray) (out : stdout_t) :
  line_decodes py_float bad = false ->
  decode_lines py_float (bad :: rest) result out
  = (out, Raise (line_error bad)).
Proof.
  unfold line_decodes, line_error. intros Hbad.
  rewrite decode_lines_cons.
  destruct (decode_utf8 bad) as [s|] eqn:Es; [|reflexivity].
  assert (s = bad).
  { unfold decode_utf8 in Es. destruct (utf8_valid bad); congruence. }
  subst s. unfold is_record, tokens in Hbad.
  destruct (List.length (split_comma bad) =? 11)%nat eqn:E11;
    [|discriminate].
  apply Nat.eqb_eq in E11. rewrite (pop_last_of_eleven _ _ E11).
  unfold row_of, tokens in Hbad.
  destruct (convert_all py_float (firstn 10 (split_comma bad)));
    [discriminate|reflexivity].
Qed.

Lemma first_bad_line (lines : list string) :
  forallb (line_decodes py_float) lines = false ->
  exists l1 bad l2,
    lines = l1 ++ bad :: l2
    /\ forallb (line_decodes py_float) l1 = true
    /\ line_decodes py_float bad = false.
Proof.
  induction lines as [|line lines IH]; [discriminate|].
  cbn [forallb]. destruct (line_decodes py_float line) eqn:E.
  - cbn [andb]. intros H. destruct (IH H) as [l1 [bad [l2 [-> [H1 H2]]]]].
    exists (line :: l1), bad, l2. repeat split; [|assumption].
    cbn [forallb]. now rewrite E, H1.
  - intros _. exists [], line, lines. repeat split. exact E.
Qed.

(** X2.  [__decode_result] returns a table exactly when every line is
    UTF-8 and every 11-token line has numbers in its first ten tokens.
    Otherwise the first line that fails decides: the call raises
    [UnicodeDecodeError] if that line is not UTF-8 and [ValueError] if
    one of its ten tokens is not a number; what the lines before it
    printed stays printed, later lines are never looked at, and the rows
    found so far are lost. *)
Theorem decode_result_first_error_decides (raw : string) (out : stdout_t) :
  ((exists out' table, decode_result py_float raw out = (out', Ok table))
   <-> forallb (line_decodes py_float) (splitlines raw) = true)
  /\ (forall l1 bad l2,
        splitlines raw = l1 ++ bad :: l2 ->
        forallb (line_decodes py_float) l1 = true ->
        line_decodes py_float bad = false ->
        decode_result py_float raw out
        = (out ++ map tokens (filter is_diagnostic l1),
           Raise (line_error bad))).
Proof.
  assert (Hbad : forall l1 bad l2,
             splitlines raw = l1 ++ bad :: l2 ->
             forallb (line_decodes py_float) l1 = true ->
             line_decodes py_float bad = false ->
             decode_result py_float raw out
             = (out ++ map tokens (filter is_diagnostic l1),
                Raise (line_error bad))).
  { intros l1 bad l2 Hsplit Hgood Hstop.
    unfold decode_result. rewrite Hsplit, decode_lines_app.
    destruct (all_lines_decode l1 Hgood) as [Hutf Hnum].
    destruct (decode_lines_rows py_float l1 Hutf Hnum [] out)
      as [rows [-> _]].
    now apply decode_lines_stops. }
  split; [|exact Hbad].
  split.
  - intros [out' [table Hrun]].
    destruct (forallb (line_decodes py_float) (splitlines raw)) eqn:E;
      [reflexivity|exfalso].
    destruct (first_bad_line _ E) as [l1 [bad [l2 [Hs [H1 H2]]]]].
    rewrite (Hbad l1 bad l2 Hs H1 H2) in Hrun. discriminate.
  - intros Hall. destruct (all_lines_decode _ Hall) as [Hutf Hnum].
    destruct (decode_lines_rows py_float (splitlines raw) Hutf Hnum [] out)
      as [rows [Hrun _]].
    do 2 eexists. exact Hrun.
Qed.

(** A loop that returns got past every line. *)
Lemma decode_lines_returns_all_decode (lines : list string)
    (result : ndarray) (out out' : stdout_t) (table : ndarray) :
  decode_lines py_float lines result out = (out', Ok table) ->
  forallb (line_decodes py_float) lines = true.
Proof.
  intros Hrun.
  destruct (forallb (line_decodes py_float) lines) eqn:E;
    [reflexivity|exfalso].
  destruct (first_bad_line _ E) as [l1 [bad [l2 [Hs [H1 H2]]]]].
  rewrite Hs, decode_lines_app in Hrun.
  destruct (all_lines_decode l1 H1) as [Hutf Hnum].
  destruct (decode_lines_rows py_float l1 Hutf Hnum result out)
    as [rows [Hl1 _]].
  rewrite Hl1, (decode_lines_stops bad l2 _ _ H2) in Hrun.
  discriminate.
Qed.

Lemma is_record_commas (line : string) :
  is_record line = (count_commas line =? 10)%nat.
Proof.
  unfold is_record, tokens. now rewrite split_comma_counts.
Qed.

Lemma is_diagnostic_commas (line : string) :
  is_diagnostic line
  = ((1 <=? count_commas line)%nat
     && negb (count_commas line =? 10)%nat)%bool.
Proof.
  unfold is_diagnostic, tokens. now rewrite split_comma_counts.
Qed.

(** X1.  Whatever [float] accepts, a call of [__decode_result] that
    returns has counted commas: the table has one row of ten columns for
    each line of the text with exactly ten commas, and the call printed,
    in order, the tokens of each line with at least one comma but not
    ten; lines without a comma left no trace. *)
Theorem decode_result_counts_commas
    (raw : string) (out out' : stdout_t) (table : ndarray) :
  decode_result py_float raw out = (out', Ok table) ->
  List.length table
  = List.length (filter (fun line => (count_commas line =? 10)%nat)
                        (splitlines raw))
  /\ wf_data table
  /\ out' = out ++ map split_comma
                     (filter (fun line =>
                                ((1 <=? count_commas line)%nat
                                 && negb (count_commas line =? 10)%nat)%bool)
                             (splitlines raw)).
Proof.
  intros Hrun. unfold decode_result in Hrun.
  pose proof (decode_lines_returns_all_decode _ _ _ _ _ Hrun) as Hall.
  destruct (all_lines_decode _ Hall) as [Hutf Hnum].
  destruct (decode_lines_rows py_float (splitlines raw) Hutf Hnum [] out)
    as [rows [Hrun' Hrows]].
  rewrite Hrun' in Hrun. cbn [app] in Hrun.
  injection Hrun as Hout Htable. subst out' table.
  split; [|split].
  - rewrite (Forall2_length Hrows).
    now rewrite (filter_ext _ _ is_record_commas).
  - apply (rows_have_ten_columns py_float _ _ Hrows).
    apply Forall_forall. intros l Hl. now apply filter_In in Hl.
  - now rewrite (filter_ext _ _ is_diagnostic_commas).
Qed.

End DecoderMore.

Section WireFormat.

Variable py_float : string -> option npfloat.

Local Open Scope string_scope.

Lemma string_app_assoc (a b c : string) : (a ++ b) ++ c = a ++ (b ++ c).
Proof. induction a as [|x a IH]; simpl; [reflexivity|now rewrite IH]. Qed.

Lemma string_app_nil_r (a : string) : a ++ EmptyString = a.
Proof. induction a as [|x a IH]; simpl; [reflexivity|now rewrite IH]. Qed.

Lemma all_chars_app (p : ascii -> bool) (a b : string) :
  all_chars p (a ++ b) = (all_chars p a && all_chars p b)%bool.
Proof.
  induction a as [|x a IH]; simpl; [reflexivity|].
  now rewrite IH, andb_assoc.
Qed.

Lemma all_chars_weaken (p q : ascii -> bool) (s : string) :
  (forall c, p c = true -> q c = true) ->
  all_chars p s = true -> all_chars q s = true.
Proof.
  intros Hpq. induction s as [|c s IH]; simpl; [reflexivity|].
  intros H. apply andb_true_iff in H. destruct H as [Hc Hs].
  now rewrite (Hpq c Hc), IH.
Qed.

(** Text without line ends is read into the current line. *)
Lemma splitlines_from_inline (t : string) :
  forall cur rest : string,
    all_chars inline_char t = true ->
    splitlines_from cur (t ++ rest) = splitlines_from (cur ++ t) rest.
Proof.
  induction t as [|c t IH]; intros cur rest Ht.
  - simpl. now rewrite string_app_nil_r.
  - simpl in Ht. apply andb_true_iff in Ht. destruct Ht as [Hc Ht].
    unfold inline_char in Hc. apply andb_true_iff in Hc.
    destruct Hc as [Hlf Hcr].
    apply negb_true_iff in Hlf, Hcr.
    cbn [append splitlines_from]. rewrite Hlf, Hcr.
    rewrite IH by assumption.
    now rewrite string_app_assoc.
Qed.

(** A line feed ends a chunk: what follows is split on its own. *)
Lemma splitlines_from_chunk (n : nat) :
  forall a cur b : string,
    (String.length a <= n)%nat ->
    splitlines_from cur (a ++ String LF b)
    = (splitlines_from cur (a ++ String LF EmptyString)
       ++ splitlines b)%list.
Proof.
  induction n as [|n IH]; intros a cur b Hlen.
  - destruct a; [|simpl in Hlen; lia]. reflexivity.
  - destruct a as [|c a]; [reflexivity|].
    simpl in Hlen.
    cbn [append splitlines_from].
    destruct (Ascii.eqb c LF).
    + rewrite IH by lia. reflexivity.
    + destruct (Ascii.eqb c CR).
      * destruct a as [|c' a].
        -- reflexivity.
        -- cbn [append]. destruct (Ascii.eqb c' LF).
           ++ rewrite IH by (simpl in Hlen; lia). reflexivity.
           ++ change (String c' (a ++ String LF b))
                with (String c' a ++ String LF b).
              change (String c' (a ++ String LF EmptyString))
                with (String c' a ++ String LF EmptyString).
              rewrite IH by (simpl in *; lia). reflexivity.
      * rewrite IH by lia. reflexivity.
Qed.

(** X3.  Telemetry that arrives in chunks decodes chunk by chunk: for a
    text cut after a line feed, the decoder's outcome on the whole text
    is its outcome on the first part followed by its outcome on the
    rest, the tables one after the other; an exception in the first part
    is the outcome, and the rest is then never read. *)
Theorem decode_result_by_chunks (a b : string) (out : stdout_t) :
  decode_result py_float (a ++ String LF b) out =
  match decode_result py_float (a ++ String LF EmptyString) out with
  | (out1, Ok t1) =>
      match decode_result py_float b out1 with
      | (out2, Ok t2) => (out2, Ok (t1 ++ t2)%list)
      | (out2, Raise e) => (out2, Raise e)
      end
  | (out1, Raise e) => (out1, Raise e)
  end.
Proof.
  unfold decode_result, splitlines.
  rewrite (splitlines_from_chunk (String.length a) a EmptyString b)
    by lia.
  rewrite decode_lines_app.
  destruct (decode_lines py_float
              (splitlines_from EmptyString (a ++ String LF EmptyString))
              [] out) as [out1 [t1|e]]; [|reflexivity].
  apply decode_lines_from.
Qed.

Lemma utf8_valid_ascii (s : string) :
  all_chars (byte_in 0 127) s = true -> utf8_valid s = true.
Proof.
  induction s as [|c s IH]; simpl; [reflexivity|].
  intros H. apply andb_true_iff in H. destruct H as [Hc Hs].
  rewrite Hc. now apply IH.
Qed.

Lemma field_char_parts (c : ascii) :
  field_char c = true ->
  byte_in 0 127 c = true /\ Ascii.eqb c COMMA = false
  /\ Ascii.eqb c LF = false /\ Ascii.eqb c CR = false.
Proof.
  unfold field_char.
  destruct (byte_in 0 127 c), (Ascii.eqb c COMMA), (Ascii.eqb c LF),
    (Ascii.eqb c CR); cbn; intros H; try discriminate; auto.
Qed.

Lemma field_char_ascii (c : ascii) :
  field_char c = true -> byte_in 0 127 c = true.
Proof. intros H. now apply field_char_parts in H. Qed.

Lemma field_char_inline (c : ascii) :
  field_char c = true -> inline_char c = true.
Proof.
  intros H. apply field_char_parts in H. destruct H as [_ [_ [Hlf Hcr]]].
  unfold inline_char. now rewrite Hlf, Hcr.
Qed.

Lemma field_char_no_comma (c : ascii) :
  field_char c = true -> Ascii.eqb c COMMA = false.
Proof. intros H. now apply field_char_parts in H. Qed.

(** A field followed by a comma is a token of its own. *)
Lemma split_comma_field (t rest : string) :
  all_chars field_char t = true ->
  split_comma (t ++ String COMMA rest) = t :: split_comma rest.
Proof.
  induction t as [|c t IH]; intros Ht.
  - change (split_comma (String COMMA rest))
      with (if Ascii.eqb COMMA COMMA
            then EmptyString :: split_comma rest
            else match split_comma rest with
                 | t :: ts => String COMMA t :: ts
                 | [] => [String COMMA EmptyString]
                 end).
    reflexivity.
  - simpl in Ht. apply andb_true_iff in Ht. destruct Ht as [Hc Ht].
    cbn [append split_comma]. rewrite (field_char_no_comma c Hc).
    now rewrite IH.
Qed.

Lemma split_comma_fields (fields : list string) :
  fields <> [] ->
  Forall (fun t => all_chars field_char t = true) fields ->
  split_comma (String.concat "," fields ++ ",")
  = (fields ++ [EmptyString])%list.
Proof.
  induction fields as [|x fields IH]; intros Hne Hall; [congruence|].
  inversion Hall as [|? ? Hx Hrest]; subst.
  destruct fields as [|y fields].
  - cbn [String.concat]. change ","%string with (String COMMA EmptyString).
    now rewrite split_comma_field.
  - change (String.concat "," (x :: y :: fields))
      with (x ++ String COMMA (String.concat "," (y :: fields))).
    rewrite string_app_assoc.
    change (String COMMA (String.concat "," (y :: fields)) ++ ",")%string
      with (String COMMA (String.concat "," (y :: fields) ++ ",")).
    rewrite split_comma_field by assumption.
    rewrite IH by (assumption || discriminate). reflexivity.
Qed.

Lemma concat_fields_chars (p : ascii -> bool) (fields : list string) :
  p COMMA = true ->
  Forall (fun t => all_chars p t = true) fields ->
  all_chars p (String.concat "," fields ++ ",") = true.
Proof.
  intros Hcomma.
  assert (Hlast : all_chars p "," = true).
  { change ","%string with (String COMMA EmptyString).
    cbn [all_chars]. now rewrite Hcomma. }
  induction fields as [|x fields IH]; intros Hall.
  - exact Hlast.
  - inversion Hall as [|? ? Hx Hrest]; subst.
    destruct fields as [|y fields].
    + cbn [String.concat]. now rewrite all_chars_app, Hx, Hlast.
    + change (String.concat "," (x :: y :: fields))
        with (x ++ String COMMA (String.concat "," (y :: fields))).
      rewrite string_app_assoc, all_chars_app, Hx.
      cbn [andb append all_chars]. rewrite Hcomma.
      now apply IH.
Qed.

Lemma fields_weaken (p : ascii -> bool) (fields : list string) :
  (forall c, field_char c = true -> p c = true) ->
  Forall (fun t => all_chars field_char t = true) fields ->
  Forall (fun t => all_chars p t = true) fields.
Proof.
  intros Hp Hall. eapply Forall_impl; [|exact Hall].
  intros t Ht. now apply (all_chars_weaken field_char p).
Qed.

Lemma wire_line_inline (fields : list string) :
  Forall (fun t => all_chars field_char t = true) fields ->
  all_chars inline_char (wire_line fields) = true.
Proof.
  intros Hf. unfold wire_line.
  apply concat_fields_chars; [reflexivity|].
  apply fields_weaken; [apply field_char_inline|assumption].
Qed.

(** A record on the wire does not start with a line feed. *)
Lemma wire_line_starts_inline (fields : list string) :
  Forall (fun t => all_chars field_char t = true) fields ->
  exists c rest,
    wire_line fields = String c rest /\ Ascii.eqb c LF = false.
Proof.
  intros Hf. pose proof (wire_line_inline fields Hf) as Hin.
  destruct (wire_line fields) as [|c rest] eqn:E.
  - exfalso. unfold wire_line in E.
    destruct (String.concat "," fields); discriminate.
  - exists c, rest. split; [reflexivity|].
    cbn [all_chars] in Hin. apply andb_true_iff in Hin.
    destruct Hin as [Hc _]. unfold inline_char in Hc.
    apply andb_true_iff in Hc. destruct Hc as [Hlf _].
    now apply negb_true_iff.
Qed.

(** The lines of a wire text are its records, whichever line end is
    used. *)
Lemma splitlines_wire_text (eol : string) (records : list (list string)) :
  is_line_end eol ->
  Forall (fun fields =>
            Forall (fun t => all_chars field_char t = true) fields)
         records ->
  splitlines (wire_text eol records) = map wire_line records.
Proof.
  intros Heol.
  induction records as [|fields records IH]; intros Hall; [reflexivity|].
  inversion Hall as [|? ? Hf Hrest]; subst.
  specialize (IH Hrest).
  cbn [wire_text map]. unfold splitlines.
  rewrite splitlines_from_inline by now apply wire_line_inline.
  cbn [append].
  destruct Heol as [ -> | [ -> | -> ] ]; cbn [append splitlines_from].
  - change (Ascii.eqb LF LF) with true. cbv iota.
    f_equal. exact IH.
  - change (Ascii.eqb CR LF) with false.
    change (Ascii.eqb CR CR) with true.
    change (Ascii.eqb LF LF) with true. cbv iota.
    f_equal. exact IH.
  - change (Ascii.eqb CR LF) with false.
    change (Ascii.eqb CR CR) with true. cbv iota.
    destruct records as [|next records].
    + reflexivity.
    + inversion Hrest as [|? ? Hnext _]; subst.
      destruct (wire_line_starts_inline next Hnext)
        as [c [rest [Hstart Hc]]].
      cbn [wire_text]. rewrite Hstart. cbn [append]. rewrite Hc.
      f_equal. rewrite <- IH. cbn [wire_text]. rewrite Hstart.
      reflexivity.
Qed.

(** A record on the wire decodes to its converted fields. *)
Lemma decode_lines_of_records (records : list (list string)) :
  forall (table result : ndarray) (out : stdout_t),
    Forall (fun fields =>
              List.length fields = 10%nat
              /\ Forall (fun t => all_chars field_char t = true) fields)
           records ->
    Forall2 (fun fields row => convert_all py_float fields = Some row)
            records table ->
    decode_lines py_float (map wire_line records) result out
    = (out, Ok (result ++ table)%list).
Proof.
  induction records as [|fields records IH];
    intros table result out Hrec Hconv.
  - inversion Hconv; subst. cbn. unfold ret.
    now rewrite app_nil_r.
  - inversion Hconv as [|? row ? table' Hrow Hconv']; subst.
    inversion Hrec as [|? ? [Hten Hf] Hrest]; subst.
    cbn [map]. rewrite decode_lines_cons.
    assert (Hutf : decode_utf8 (wire_line fields)
                   = Some (wire_line fields)).
    { unfold decode_utf8, wire_line.
      rewrite utf8_valid_ascii; [reflexivity|].
      apply concat_fields_chars; [reflexivity|].
      apply fields_weaken; [apply field_char_ascii|assumption]. }
    rewrite Hutf.
    assert (Hsplit : split_comma (wire_line fields)
                     = (fields ++ [EmptyString])%list)
      by (apply split_comma_fields;
          assumption || (intros ->; discriminate)).
    rewrite Hsplit.
    rewrite length_app, Hten. cbn [List.length Nat.add Nat.eqb].
    rewrite removelast_last, Hrow.
    rewrite (IH table' (result ++ [row])%list out Hrest Hconv').
    now rewrite <- app_assoc.
Qed.

(** X4.  Round trip over the wire format.  For records of ten fields
    each, made of ASCII characters other than commas and line ends and
    which [float] converts, the text that holds each record as its
    fields, every field followed by a comma, and a line end ([\n],
    [\r\n] or [\r], the same throughout) decodes to exactly the table
    of the converted fields, in order, and nothing is printed. *)
Theorem decode_result_of_wire_text
    (eol : string) (records : list (list string)) (table : ndarray)
    (out : stdout_t) :
  is_line_end eol ->
  Forall (fun fields =>
            List.length fields = 10%nat
            /\ Forall (fun t => all_chars field_char t = true) fields)
         records ->
  Forall2 (fun fields row => convert_all py_float fields = Some row)
          records table ->
  decode_result py_float (wire_text eol records) out = (out, Ok table).
Proof.
  intros Heol Hrec Hconv. unfold decode_result.
  rewrite splitlines_wire_text;
    [|assumption|eapply Forall_impl; [|exact Hrec]; now intros f [_ Hf]].
  now rewrite (decode_lines_of_records records table [] out).
Qed.

End WireFormat.

(* ================================================================== *)
(** ** Reachable states of the environment *)
(* ================================================================== *)

Section ReachableStates.

Variable py_float : string -> option npfloat.
Variable dq0_to_abc : vec3 -> npfloat -> vec3.

Local Open Scope Z_scope.

Lemma invariant_after_step (w : world) :
  episode_invariant (self w) ->
  episode_invariant (self (fst (step dq0_to_abc w))).
Proof.
  intros [Hwf [Hc Hd]].
  destruct (Z.eq_dec (current_step (self w))
                     (Z.of_nat (List.length (data (self w))))) as [E|E].
  - rewrite step_past_buffer by lia. cbn [fst].
    repeat split; assumption || lia.
  - rewrite step_reads_row by (assumption || lia). cbn [fst self].
    destruct (advance_frame (self w))
      as [Hcur [Hdata [_ [_ [_ [_ [_ [_ [Hm _]]]]]]]]].
    unfold episode_invariant.
    rewrite advance_done, Hcur, Hdata, Hm, Hd.
    repeat split; assumption || lia.
Qed.

Ltac env_fields :=
  unfold episode_invariant;
  cbn [self stdout fst snd data current_step done max_episode_steps
       set_kP set_kI set_ssh_connected set_done set_current_step set_data].

Lemma invariant_after_reset (r : remote) (kP' kI' : npfloat) (w : world) :
  episode_invariant (self w) ->
  episode_invariant (self (fst (reset py_float r kP' kI' w))).
Proof.
  intros [Hwf [Hc Hd]]. rewrite reset_by_cases. cbv zeta.
  destruct (connect r _ _ _);
    [|env_fields; repeat split; assumption || lia].
  destruct (exec_command r _) as [raw|];
    [|env_fields; repeat split; assumption || lia].
  destruct (decode_result py_float raw (stdout w)) as [out [table|e]] eqn:Ed;
    [|env_fields; repeat split; assumption || lia].
  env_fields. repeat split; try lia.
  unfold decode_result in Ed.
  exact (decode_lines_wf py_float _ [] _ _ _ (Forall_nil _) Ed).
Qed.

Lemma reachable_episode_invariant_parts (w : world) :
  reachable py_float dq0_to_abc w ->
  wf_data (data (self w))
  /\ 0 <= current_step (self w) <= Z.of_nat (List.length (data (self w))).
Proof.
  induction 1 as [h u p dt s n kp ki ir fn il inom out
                 |w r kP' kI' _ IH|w _ IH].
  - cbn. split; [constructor|lia].
  - destruct IH as [Hwf Hc]. rewrite reset_by_cases. cbv zeta.
    destruct (connect r _ _ _);
      [|env_fields; split; assumption || lia].
    destruct (exec_command r _) as [raw|];
      [|env_fields; split; assumption || lia].
    destruct (decode_result py_float raw (stdout w))
      as [out [table|e]] eqn:Ed;
      [|env_fields; split; assumption || lia].
    env_fields. split; [|lia].
    unfold decode_result in Ed.
    exact (decode_lines_wf py_float _ [] _ _ _ (Forall_nil _) Ed).
  - destruct IH as [Hwf Hc].
    destruct (Z.eq_dec (current_step (self w))
                       (Z.of_nat (List.length (data (self w))))) as [E|E].
    + rewrite step_past_buffer by lia. cbn [fst]. split; assumption || lia.
    + rewrite step_reads_row by (assumption || lia). cbn [fst self].
      destruct (advance_frame (self w)) as [Hcur [Hdata _]].
      rewrite Hcur, Hdata. split; assumption || lia.
Qed.

(** X5.  Every state an object can reach, by construction followed by
    any calls of [reset] and [step] (returning or raising, against any
    remote side), has a buffer of ten-column rows, a cursor between 0
    and the number of buffered rows, and [done] raised exactly when
    [max_episode_steps] is at least 1 and the cursor has reached it. *)
Theorem reachable_episode_invariant (w : world) :
  reachable py_float dq0_to_abc w -> episode_invariant (self w).
Proof.
  induction 1 as [h u p dt s n kp ki ir fn il inom out
                 |w r kP' kI' _ IH|w _ IH].
  - unfold init. env_fields. cbn [List.length].
    repeat split; try lia. constructor.
  - now apply invariant_after_reset.
  - now apply invariant_after_step.
Qed.

(** X6.  On a reachable object whose step count is one of 64 bits
    [step] has exactly two behaviours.  While rows are left (the cursor
    is below the number of buffered rows) it returns the row under the
    cursor and advances; once the buffer is used up it raises
    [IndexError] and leaves the object and the output as they were.  It
    never reads with a negative index and never stops half-way.  (A step
    count too large for a float is outside the statement: there the
    reward raises after the cursor has moved.) *)
Theorem step_returns_or_leaves_untouched (w : world) :
  reachable py_float dq0_to_abc w ->
  int64_range (max_episode_steps (self w)) ->
  (current_step (self w) < Z.of_nat (List.length (data (self w)))
   /\ exists res,
       step dq0_to_abc w
         = (mkWorld (advance (self w)) (stdout w), Ok res)
       /\ nth_error (data (self w)) (Z.to_nat (current_step (self w)))
          = Some (row_read res))
  \/ (current_step (self w) = Z.of_nat (List.length (data (self w)))
      /\ step dq0_to_abc w = (w, Raise IndexError)).
Proof.
  intros Hreach _.
  destruct (reachable_episode_invariant_parts w Hreach) as [Hwf Hc].
  destruct (Z.eq_dec (current_step (self w))
                     (Z.of_nat (List.length (data (self w))))) as [E|E].
  - right. split; [assumption|]. apply step_past_buffer. lia.
  - left. split; [lia|]. eexists. split.
    + apply step_reads_row; assumption || lia.
    + cbn [row_read]. apply nth_error_nth'. lia.
Qed.

End ReachableStates.

Section SessionAndReplay.

Variable py_float : string -> option npfloat.
Variable dq0_to_abc : vec3 -> npfloat -> vec3.

Local Open Scope Z_scope.

(** X7.  [reset] reaches [ssh.close()] only at the end of a call that
    returns.  A call that returns has closed the session it opened; a
    call whose [connect] succeeded and which then raises (the remote
    command fails, or the decoder raises) has not called [close()]: the
    session it opened is left open. *)
Theorem reset_leaves_session_open_when_it_raises
    (r : remote) (kP' kI' : npfloat) (w : world) (e : exn) :
  connect r (host (self w)) (username (self w)) (password (self w))
    = true ->
  (snd (reset py_float r kP' kI' w) = Ok tt ->
   ssh_connected (self (fst (reset py_float r kP' kI' w))) = false)
  /\ (snd (reset py_float r kP' kI' w) = Raise e ->
      ssh_connected (self (fst (reset py_float r kP' kI' w))) = true).
Proof.
  intros Hconnect. rewrite reset_by_cases. cbv zeta.
  change (host (set_kI kI' (set_kP kP' (self w)))) with (host (self w)).
  change (username (set_kI kI' (set_kP kP' (self w))))
    with (username (self w)).
  change (password (set_kI kI' (set_kP kP' (self w))))
    with (password (self w)).
  rewrite Hconnect.
  destruct (exec_command r _) as [raw|].
  - destruct (decode_result py_float raw (stdout w)) as [out [table|e0]];
      split; intros H; try discriminate H; reflexivity.
  - split; intros H; try discriminate H; reflexivity.
Qed.

Lemma trace_rows_all (e : TestbenchEnv) :
  current_step e = 0 ->
  map row_read (trace dq0_to_abc (List.length (data e)) e) = data e.
Proof.
  intros Hc.
  apply (nth_ext _ _ [] []).
  - now rewrite length_map, trace_length.
  - intros j Hj. rewrite length_map, trace_length in Hj.
    pose proof (trace_nth dq0_to_abc (List.length (data e)) e j
                          ltac:(lia) Hj) as Hn.
    apply (map_nth_error row_read) in Hn. cbn [row_read] in Hn.
    rewrite Hc in Hn. cbn [Z.to_nat Nat.add] in Hn.
    now apply nth_error_nth.
Qed.

(** X8.  An episode replays the telemetry.  After a [reset] that
    returns, the remote command was run with the configured script and
    step count, the new gains, [i_ref] and [f_nom]; the buffer holds one
    row per 11-token line of what it printed, in order; and stepping
    through the whole buffer succeeds and returns exactly those rows,
    one per call, in order. *)
Theorem episode_replays_remote_records
    (r : remote) (kP' kI' : npfloat) (w w1 : world) :
  reset py_float r kP' kI' w = (w1, Ok tt) ->
  exists raw,
    exec_command r
      (mkCommand (executable_script_name (self w))
                 (max_episode_steps (self w)) kP' kI'
                 (i_ref (self w)) (f_nom (self w))) = Some raw
    /\ Forall2 (fun row line => row_of py_float line = Some row)
               (data (self w1)) (filter is_record (splitlines raw))
    /\ exists w2 rs,
        steps dq0_to_abc (List.length (data (self w1))) w1 = (w2, Ok rs)
        /\ map row_read rs = data (self w1).
Proof.
  intros Hreset.
  destruct (reset_returns py_float r kP' kI' w w1 Hreset)
    as [Hc [_ [Hwf _]]].
  rewrite reset_by_cases in Hreset. cbv zeta in Hreset.
  destruct (connect r _ _ _); [|discriminate].
  change (mkCommand
            (executable_script_name (set_kI kI' (set_kP kP' (self w))))
            (max_episode_steps (set_kI kI' (set_kP kP' (self w))))
            (kP (set_kI kI' (set_kP kP' (self w))))
            (kI (set_kI kI' (set_kP kP' (self w))))
            (i_ref (set_kI kI' (set_kP kP' (self w))))
            (f_nom (set_kI kI' (set_kP kP' (self w)))))
    with (mkCommand (executable_script_name (self w))
                    (max_episode_steps (self w)) kP' kI'
                    (i_ref (self w)) (f_nom (self w))) in Hreset.
  destruct (exec_command r _) as [raw|]; [|discriminate].
  exists raw. split; [reflexivity|].
  destruct (decode_result py_float raw (stdout w)) as [out [table|e]] eqn:Ed;
    [|discriminate].
  inversion Hreset; subst; clear Hreset.
  cbn [self data set_ssh_connected set_done set_current_step set_data] in *.
  split.
  - destruct (forallb (line_decodes py_float) (splitlines raw)) eqn:Eall.
    + destruct (all_lines_decode py_float _ Eall) as [Hutf Hnum].
      destruct (decode_lines_rows py_float (splitlines raw) Hutf Hnum
                                  [] (stdout w)) as [rows [Hrun Hrows]].
      unfold decode_result in Ed. rewrite Hrun in Ed.
      inversion Ed; subst. exact Hrows.
    + destruct (first_bad_line py_float _ Eall)
        as [l1 [bad [l2 [Hs [H1 H2]]]]].
      unfold decode_result in Ed.
      rewrite Hs, decode_lines_app in Ed.
      destruct (all_lines_decode py_float l1 H1) as [Hutf Hnum].
      destruct (decode_lines_rows py_float l1 Hutf Hnum [] (stdout w))
        as [rows [Hrun _]].
      rewrite Hrun, decode_lines_stops in Ed by assumption.
      discriminate.
  - do 2 eexists. split.
    + apply steps_within_buffer; cbn [self data current_step];
        try assumption; cbn; lia.
    + exact (trace_rows_all _ Hc).
Qed.

End SessionAndReplay.

(* ================================================================== *)
(** ** Rendering *)
(* ================================================================== *)

Section RenderFacts.

Variable linspace : npfloat -> npfloat -> nat -> list npfloat.

Lemma column_of_rows (d : ndarray) (k : nat) :
  wf_data d -> (k < 10)%nat ->
  column_of d k = Some (map (fun row => col row k) d).
Proof.
  intros Hwf Hk. induction Hwf as [|row d Hrow _ IH]; [reflexivity|].
  cbn [column_of map]. rewrite IH.
  rewrite (nth_error_nth' row NaN) by lia. reflexivity.
Qed.

(** X9.  [render] needs a buffer with rows.  On the empty buffer (before
    the first [reset], or after one whose output held no record) it
    raises [IndexError] before drawing anything.  On a buffer of [N]
    ten-column rows it returns having shown three figures against one
    time axis [linspace(0, N * DT, N)]: columns 0 to 2 as voltages, 3 to
    5 as currents, 6 to 8 as dq0 currents, [N] points a curve; the phase
    angle, column 9, is not drawn.  In both cases the object and the
    output are unchanged. *)
Theorem render_needs_rows (w : world) :
  wf_data (data (self w)) ->
  (data (self w) = [] -> render linspace w = (w, Raise IndexError))
  /\ (data (self w) <> [] ->
      let N := List.length (data (self w)) in
      let t := linspace (Fin 0) (mul (of_int (Z.of_nat N)) (DT (self w))) N in
      let c := fun k => map (fun row => col row k) (data (self w)) in
      render linspace w
      = (w, Ok [mkPlot "Voltages (V)" t [c 0%nat; c 1%nat; c 2%nat];
                mkPlot "Currents (A)" t [c 3%nat; c 4%nat; c 5%nat];
                mkPlot "Currents DQ0(A)" t [c 6%nat; c 7%nat; c 8%nat]])
        /\ forall k, List.length (c k) = N).
Proof.
  intros Hwf. split.
  - intros Hempty. unfold render, bind, get_self, try_opt.
    rewrite Hempty. reflexivity.
  - intros Hne N t c. split; [|intros k; apply length_map].
    assert (Hcol : forall k, (k < 10)%nat ->
                     column (data (self w)) k = Some (c k)).
    { intros k Hk. unfold column.
      destruct (data (self w)) as [|row rows] eqn:Ed; [congruence|].
      rewrite <- Ed in *. unfold c. rewrite Ed at 1.
      rewrite <- Ed. now apply column_of_rows. }
    unfold render, bind, get_self, try_opt, ret.
    rewrite !Hcol by lia. reflexivity.
Qed.

End RenderFacts.

(* ================================================================== *)
(** ** The sign of the reward *)
(* ================================================================== *)

Section RewardSign.

Variable dq0_to_abc : vec3 -> npfloat -> vec3.

Local Open Scope R_scope.

Lemma not_negative_pow_half (x : npfloat) : not_negative (pow_half x).
Proof.
  destruct x as [r| | |]; cbn; try exact I.
  unfold Rsign. destruct (total_order_T r 0) as [[H|H]|H]; cbn;
    try exact I; apply sqrt_pos.
Qed.

Lemma not_negative_add (x y : npfloat) :
  not_negative x -> not_negative y -> not_negative (add x y).
Proof. destruct x, y; cbn; try tauto. intros; lra. Qed.

Lemma not_positive_add (x y : npfloat) :
  not_positive x -> not_positive y -> not_positive (add x y).
Proof. destruct x, y; cbn; try tauto. intros; lra. Qed.

Lemma neg_not_positive (x : npfloat) :
  not_positive x -> not_negative (neg x).
Proof. destruct x; cbn; try tauto. intros; lra. Qed.

Lemma neg_not_negative (x : npfloat) :
  not_negative x -> not_positive (neg x).
Proof. destruct x; cbn; try tauto. intros; lra. Qed.

Lemma not_negative_times_steps (x : npfloat) (N : Z) :
  not_negative x -> (0 <= N)%Z -> not_negative (mul x (of_int N)).
Proof.
  intros Hx HN. apply IZR_le in HN.
  destruct x as [r| | |]; cbn in *; try tauto.
  - now apply Rmult_le_pos.
  - unfold Rsign. destruct (total_order_T (IZR N) 0) as [[H|H]|H]; cbn;
      try exact I. lra.
Qed.

Lemma ln_at_most_one (s : R) : 0 < s <= 1 -> ln s <= 0.
Proof.
  intros [H0 H1]. destruct (Req_dec s 1) as [->|Hne].
  - rewrite ln_1. lra.
  - left. rewrite <- ln_1. apply ln_increasing; lra.
Qed.

(** The barrier of a phase is never above zero, whatever the current. *)
Lemma not_positive_barrier_phase (L n : R) (x : npfloat) :
  n < L -> not_positive (barrier_phase (Fin L) (Fin n) x).
Proof.
  intros Hn. unfold barrier_phase.
  destruct x as [a| | |]; cbn [abs sub neg add maximum].
  - rewrite div_fin by lra. cbn [neg add].
    assert (Hq : 0 <= Rmax (Rabs a + - n) 0 / (L + - n)).
    { apply Rmult_le_pos; [apply Rmax_r|].
      left. apply Rinv_0_lt_compat. lra. }
    unfold log, Rsign.
    destruct (total_order_T (1 + - (Rmax (Rabs a + - n) 0 / (L + - n))) 0)
      as [[H|H]|H]; cbn.
    + exact I.
    + rewrite (Rsign_pos 2) by lra. exact I.
    + pose proof (ln_at_most_one
                    (1 + - (Rmax (Rabs a + - n) 0 / (L + - n)))
                    ltac:(lra)). lra.
  - unfold div. rewrite Rsign_pos by lra. cbn. exact I.
  - unfold div. rewrite Rsign_pos by lra. cbn. exact I.
  - cbn. exact I.
Qed.

(** X10.  The reward is never above zero.  With the nominal current
    below the limit and a step count that is not negative, [rew_fun]
    returns, for every measurement, set point and phase angle (finite or
    not, whatever [dq0_to_abc] makes of them), a real number at most 0,
    [-inf] or [nan]: never a positive number and never [+inf]. *)
Theorem reward_never_positive (env : TestbenchEnv) (n L : R)
    (m sp : vec3) (ph : npfloat) :
  i_nominal env = Fin n -> i_limit env = Fin L -> n < L ->
  (0 <= max_episode_steps env)%Z ->
  not_positive (rew_fun dq0_to_abc env m sp ph).
Proof.
  intros Hn HL Hlt HN. rewrite rew_fun_two_terms, HL, Hn.
  apply neg_not_negative, not_negative_add.
  - unfold tracking_term, vsum, vmap. cbn [v_a v_b v_c].
    repeat apply not_negative_add; apply not_negative_pow_half.
  - apply not_negative_times_steps; [|assumption].
    unfold barrier_term. apply neg_not_positive.
    unfold vsum, vmap. cbn [v_a v_b v_c].
    repeat apply not_positive_add; now apply not_positive_barrier_phase.
Qed.

(** X11.  Perfect tracking inside the nominal range earns exactly 0,
    the highest reward there is.  For a measurement equal to its finite
    three-phase set point, of magnitude at most [i_nominal] in every
    phase, and a step count of 64 bits, the reward is 0. *)
Theorem perfect_tracking_reward_is_zero
    (env : TestbenchEnv) (n L x1 x2 x3 : R)
    (sp : vec3) (ph : npfloat) :
  i_nominal env = Fin n -> i_limit env = Fin L -> n < L ->
  int64_range (max_episode_steps env) ->
  dq0_to_abc sp ph = fin3 x1 x2 x3 ->
  Rabs x1 <= n -> Rabs x2 <= n -> Rabs x3 <= n ->
  rew_fun dq0_to_abc env (fin3 x1 x2 x3) sp ph = Fin 0.
Proof.
  intros Hn HL Hlt _ Hsp H1 H2 H3.
  assert (HL0 : 0 < L) by (pose proof (Rabs_pos x1); lra).
  rewrite (rew_fun_fin dq0_to_abc env L n x1 x2 x3 x1 x2 x3 sp ph)
    by (assumption || lra).
  f_equal.
  rewrite !phase_barrier_zero by lra.
  replace (phase_error L x1 x1) with 0
    by (symmetry; now apply phase_error_zero_iff).
  replace (phase_error L x2 x2) with 0
    by (symmetry; now apply phase_error_zero_iff).
  replace (phase_error L x3 x3) with 0
    by (symmetry; now apply phase_error_zero_iff).
  ring.
Qed.

(** X12.  A longer episode never makes the same measurement score
    better.  For limits [0 <= i_nominal < i_limit], finite currents
    below the limit, a finite set point and step counts
    [1 <= N1 <= N2] of 64 bits, the reward computed with [N2] is not
    above the reward computed with [N1]; with every current at or below
    [i_nominal] the two are the same. *)
Theorem reward_not_higher_for_more_steps
    (env : TestbenchEnv) (n L a b c x1 x2 x3 : R)
    (sp : vec3) (ph : npfloat) (N1 N2 : Z) :
  i_nominal env = Fin n -> i_limit env = Fin L -> 0 <= n < L ->
  dq0_to_abc sp ph = fin3 a b c ->
  Rabs x1 < L -> Rabs x2 < L -> Rabs x3 < L ->
  (1 <= N1 <= N2)%Z -> int64_range N1 -> int64_range N2 ->
  np_le (rew_fun dq0_to_abc (with_steps N2 env) (fin3 x1 x2 x3) sp ph)
        (rew_fun dq0_to_abc (with_steps N1 env) (fin3 x1 x2 x3) sp ph)
  /\ (Rabs x1 <= n /\ Rabs x2 <= n /\ Rabs x3 <= n ->
      rew_fun dq0_to_abc (with_steps N2 env) (fin3 x1 x2 x3) sp ph
      = rew_fun dq0_to_abc (with_steps N1 env) (fin3 x1 x2 x3) sp ph).
Proof.
  intros Hn HL [Hn0 Hlt] Hsp H1 H2 H3 [_ HN] _ _.
  rewrite (rew_fun_fin dq0_to_abc (with_steps N1 env) L n a b c x1 x2 x3
                       sp ph) by assumption.
  rewrite (rew_fun_fin dq0_to_abc (with_steps N2 env) L n a b c x1 x2 x3
                       sp ph) by assumption.
  change (max_episode_steps (with_steps N1 env)) with N1.
  change (max_episode_steps (with_steps N2 env)) with N2.
  pose proof (phase_barrier_nonpos L n x1 Hlt H1) as B1.
  pose proof (phase_barrier_nonpos L n x2 Hlt H2) as B2.
  pose proof (phase_barrier_nonpos L n x3 Hlt H3) as B3.
  apply IZR_le in HN.
  split.
  - cbn [np_le]. nra.
  - intros [A1 [A2 A3]]. rewrite !phase_barrier_zero by lra.
    f_equal. ring.
Qed.

End RewardSign.

(* ================================================================== *)
(** ** What the calls leave alone *)
(* ================================================================== *)

Section Frames.

Variable py_float : string -> option npfloat.
Variable dq0_to_abc : vec3 -> npfloat -> vec3.

Local Open Scope Z_scope.

(** [step] by cases on what the indexing finds. *)
Lemma step_by_cases (w : world) :
  step dq0_to_abc w =
  match getitem (data (self w)) (current_step (self w)) with
  | None => (w, Raise IndexError)
  | Some row =>
      match getitem row 3, getitem row 4, getitem row 5, getitem row 9 with
      | Some i3, Some i4, Some i5, Some ph =>
          (mkWorld (advance (self w)) (stdout w),
           Ok (row,
               rew_fun dq0_to_abc (self w) (V3 i3 i4 i5)
                       (V3 (i_ref (self w)) (Fin 0) (Fin 0)) ph,
               done (advance (self w)), []))
      | _, _, _, _ =>
          (mkWorld (set_current_step (current_step (self w) + 1) (self w))
                   (stdout w), Raise IndexError)
      end
  end.
Proof.
  unfold step, bind, get_self, try_opt, modify_self, modify, ret, raise.
  destruct (getitem (data (self w)) (current_step (self w))) as [row|];
    [|reflexivity].
  cbn [self stdout].
  destruct (getitem row 3); [|reflexivity].
  destruct (getitem row 4); [|reflexivity].
  destruct (getitem row 5); [|reflexivity].
  destruct (getitem row 9); [|reflexivity].
  unfold advance.
  cbn [self stdout current_step max_episode_steps set_current_step].
  destruct (current_step (self w) + 1 =? max_episode_steps (self w));
    reflexivity.
Qed.

Lemma rew_fun_reads_limits (e1 e2 : TestbenchEnv) (m sp : vec3)
    (ph : npfloat) :
  i_limit e1 = i_limit e2 -> i_nominal e1 = i_nominal e2 ->
  max_episode_steps e1 = max_episode_steps e2 ->
  rew_fun dq0_to_abc e1 m sp ph = rew_fun dq0_to_abc e2 m sp ph.
Proof. intros Hl Hn Hm. unfold rew_fun. now rewrite Hl, Hn, Hm. Qed.

Ltac short_row :=
  cbn [fst snd self data current_step done set_current_step];
  repeat split; assumption.

(** The outcome of [step], and the episode state after it, are read off
    the buffer, the cursor, [done] and the reward parameters alone. *)
Lemma step_reads_episode_only (w1 w2 : world) :
  data (self w1) = data (self w2) ->
  current_step (self w1) = current_step (self w2) ->
  done (self w1) = done (self w2) ->
  i_ref (self w1) = i_ref (self w2) ->
  i_limit (self w1) = i_limit (self w2) ->
  i_nominal (self w1) = i_nominal (self w2) ->
  max_episode_steps (self w1) = max_episode_steps (self w2) ->
  snd (step dq0_to_abc w1) = snd (step dq0_to_abc w2)
  /\ data (self (fst (step dq0_to_abc w1)))
     = data (self (fst (step dq0_to_abc w2)))
  /\ current_step (self (fst (step dq0_to_abc w1)))
     = current_step (self (fst (step dq0_to_abc w2)))
  /\ done (self (fst (step dq0_to_abc w1)))
     = done (self (fst (step dq0_to_abc w2))).
Proof.
  intros Hdata Hcur Hdone Href Hlim Hnom Hmax.
  rewrite !step_by_cases, Hdata, Hcur.
  destruct (getitem (data (self w2)) (current_step (self w2))) as [row|];
    [|cbn [fst snd]; repeat split; assumption].
  destruct (getitem row 3); [|short_row].
  destruct (getitem row 4); [|short_row].
  destruct (getitem row 5); [|short_row].
  destruct (getitem row 9); [|short_row].
  cbn [fst snd self].
  destruct (advance_frame (self w1)) as [C1 [D1 _]].
  destruct (advance_frame (self w2)) as [C2 [D2 _]].
  rewrite !advance_done, C1, C2, D1, D2, Hdone, Hcur, Hmax, Href.
  rewrite (rew_fun_reads_limits (self w1) (self w2)) by assumption.
  repeat split; assumption.
Qed.

(** X13.  A [reset] that raises is invisible to the stepper: the next
    [step] returns or raises exactly as it would have without the
    attempt (same row, same reward, same flag), and leaves the same
    buffer, cursor and [done] behind. *)
Theorem failed_reset_invisible_to_step
    (r : remote) (kP' kI' : npfloat) (w : world) (e : exn) :
  snd (reset py_float r kP' kI' w) = Raise e ->
  let w' := fst (reset py_float r kP' kI' w) in
  snd (step dq0_to_abc w') = snd (step dq0_to_abc w)
  /\ data (self (fst (step dq0_to_abc w')))
     = data (self (fst (step dq0_to_abc w)))
  /\ current_step (self (fst (step dq0_to_abc w')))
     = current_step (self (fst (step dq0_to_abc w)))
  /\ done (self (fst (step dq0_to_abc w')))
     = done (self (fst (step dq0_to_abc w))).
Proof.
  intros Hraise w'. unfold w'. revert Hraise.
  rewrite reset_by_cases. cbv zeta.
  destruct (connect r _ _ _).
  - destruct (exec_command r _) as [raw|].
    + destruct (decode_result py_float raw (stdout w)) as [out [table|e0]];
        [discriminate|].
      intros _. now apply step_reads_episode_only.
    + intros _. now apply step_reads_episode_only.
  - intros _. now apply step_reads_episode_only.
Qed.

(** X14.  No call changes the configuration.  After [reset] and after
    [step], whether they return or raise, the host, user name, password,
    [DT], script name, [max_episode_steps], [i_ref], [f_nom], [i_limit]
    and [i_nominal] are those given at construction. *)
Theorem calls_keep_configuration
    (r : remote) (kP' kI' : npfloat) (w : world) :
  same_config (self w) (self (fst (reset py_float r kP' kI' w)))
  /\ same_config (self w) (self (fst (step dq0_to_abc w))).
Proof.
  split.
  - rewrite reset_by_cases. cbv zeta.
    destruct (connect r _ _ _); [|repeat split].
    destruct (exec_command r _) as [raw|]; [|repeat split].
    destruct (decode_result py_float raw (stdout w)) as [out [table|e0]];
      repeat split.
  - rewrite step_by_cases.
    destruct (getitem (data (self w)) (current_step (self w))) as [row|];
      [|repeat split].
    destruct (getitem row 3); [|repeat split].
    destruct (getitem row 4); [|repeat split].
    destruct (getitem row 5); [|repeat split].
    destruct (getitem row 9); [|repeat split].
    cbn [fst self].
    destruct (advance_frame (self w))
      as [_ [_ [_ [_ [Hr [Hl [Hn [Hf [Hm [Hdt [Hh [Hu [Hp [Hs _]]]]]]]]]]]]]].
    repeat split; assumption.
Qed.

End Frames.

(* ================================================================== *)
(** ** The further properties on concrete inputs *)
(* ================================================================== *)

(** X1 on [sample_text]: one line has ten commas and gives the only
    row, one line has a single comma and is printed, the bare word has
    none. *)
Lemma decode_result_counts_commas_witness :
  List.length [repeat (Fin 10) 10]
  = List.length (filter (fun line => (count_commas line =? 10)%nat)
                        (splitlines sample_text))
  /\ wf_data [repeat (Fin 10) 10]
  /\ [["hello"; "world"]]
     = [] ++ map split_comma
               (filter (fun line =>
                          ((1 <=? count_commas line)%nat
                           && negb (count_commas line =? 10)%nat)%bool)
                       (splitlines sample_text)).
Proof.
  apply (decode_result_counts_commas float_of_literal sample_text []
           [["hello"; "world"]] [repeat (Fin 10) 10]).
  reflexivity.
Defined.

(** X2 on a text whose second line is a record of letters: the first
    line is printed, the call raises [ValueError], and the third line is
    never printed. *)
Lemma decode_result_first_error_decides_witness :
  decode_result float_of_literal
    ("hello,world" ++ String LF ("a,b,c,d,e,f,g,h,i,j," ++ String LF
       ("1,2" ++ String LF ""))) []
  = ([["hello"; "world"]], Raise ValueError).
Proof.
  destruct (decode_result_first_error_decides float_of_literal
              ("hello,world" ++ String LF ("a,b,c,d,e,f,g,h,i,j,"
                 ++ String LF ("1,2" ++ String LF ""))) [])
    as [_ Hfirst].
  exact (Hfirst ["hello,world"] "a,b,c,d,e,f,g,h,i,j," ["1,2"]
                eq_refl eq_refl eq_refl).
Defined.

(** X4 on two scenario records ended by [\r\n]. *)
Lemma decode_result_of_wire_text_witness :
  decode_result float_of_literal
    (wire_text (String CR (String LF ""))
               [scenario_fields; scenario_fields]) []
  = ([], Ok [scenario_values; scenario_values]).
Proof.
  apply decode_result_of_wire_text.
  - right. left. reflexivity.
  - repeat constructor.
  - repeat constructor.
Defined.

(** X5 on an object that was constructed, reset against a remote side
    printing two records, and stepped once. *)
Lemma reachable_episode_invariant_witness :
  episode_invariant
    (self (fst (step inverse_park
             (fst (reset float_of_literal
                     (remote_printing (scenario_line ++ scenario_line))
                     (Fin 1) (Fin 2) (mkWorld (default_env 3) [])))))).
Proof.
  apply (reachable_episode_invariant float_of_literal inverse_park).
  apply reach_step, reach_reset. unfold default_env. apply reach_init.
Defined.

(** X6 on a fresh object: the first [step] raises [IndexError]. *)
Lemma step_returns_or_leaves_untouched_witness :
  step inverse_park (mkWorld (default_env 3) [])
  = (mkWorld (default_env 3) [], Raise IndexError).
Proof.
  destruct (step_returns_or_leaves_untouched float_of_literal inverse_park
              (mkWorld (default_env 3) []))
    as [[Hlt _]|[_ Hraise]].
  - unfold default_env. apply reach_init.
  - unfold int64_range. cbn [default_env init max_episode_steps self]. lia.
  - cbn in Hlt. lia.
  - exact Hraise.
Defined.

(** X7 on a remote side that accepts the connection and prints a record
    of letters: the decoder raises and the session stays open. *)
Lemma reset_leaves_session_open_when_it_raises_witness :
  ssh_connected
    (self (fst (reset float_of_literal
                      (remote_printing "a,b,c,d,e,f,g,h,i,j,")
                      (Fin 1) (Fin 2) (mkWorld (default_env 3) []))))
  = true.
Proof.
  destruct (reset_leaves_session_open_when_it_raises float_of_literal
              (remote_printing "a,b,c,d,e,f,g,h,i,j,") (Fin 1) (Fin 2)
              (mkWorld (default_env 3) []) ValueError eq_refl)
    as [_ Hopen].
  apply Hopen. reflexivity.
Defined.

(** X8 on a remote side printing two scenario records. *)
Lemma episode_replays_remote_records_witness :
  exists w1 w2 rs,
    reset float_of_literal
          (remote_printing (scenario_line ++ scenario_line))
          (Fin 1) (Fin 2) (mkWorld (default_env 2) []) = (w1, Ok tt)
    /\ steps inverse_park 2 w1 = (w2, Ok rs)
    /\ map row_read rs = [scenario_values; scenario_values].
Proof.
  pose proof (reset_scenario 2 2 (scenario_line ++ scenario_line)
                (Fin 1) (Fin 2) eq_refl) as Hreset.
  destruct (episode_replays_remote_records float_of_literal inverse_park
              _ _ _ _ _ Hreset) as [raw [_ [_ [w2 [rs [Hrun Hrows]]]]]].
  eexists. exists w2, rs. split; [exact Hreset|]. split; assumption.
Defined.

(** X9 on a fresh object and on a buffer of two scenario rows. *)
Lemma render_needs_rows_witness :
  render even_axis (mkWorld (default_env 3) [])
    = (mkWorld (default_env 3) [], Raise IndexError)
  /\ exists figures,
      render even_axis (scenario_world 3 2)
        = (scenario_world 3 2, Ok figures)
      /\ map curves figures
         = [[[Fin 0; Fin 0]; [Fin 0; Fin 0]; [Fin 0; Fin 0]];
            [[Fin 10; Fin 10]; [Fin 10; Fin 10]; [Fin 10; Fin 10]];
            [[Fin 0; Fin 0]; [Fin 0; Fin 0]; [Fin 0; Fin 0]]].
Proof.
  split.
  - apply (render_needs_rows even_axis (mkWorld (default_env 3) [])).
    + constructor.
    + reflexivity.
  - destruct (scenario_world_rows 3 2) as [_ [Hwf _]].
    destruct (render_needs_rows even_axis (scenario_world 3 2) Hwf)
      as [_ Hsome].
    destruct Hsome as [Hrun _]; [discriminate|].
    eexists. split; [exact Hrun|reflexivity].
Defined.

(** X10 with the default limits, on a measurement holding an infinite
    and an undefined current. *)
Lemma reward_never_positive_witness :
  not_positive
    (rew_fun inverse_park (default_env 1000) (V3 PInf NaN (Fin 5))
             (V3 (Fin 10) (Fin 0) (Fin 0)) (Fin 0)).
Proof.
  apply (reward_never_positive inverse_park (default_env 1000) 20 30).
  - reflexivity.
  - reflexivity.
  - lra.
  - cbn. lia.
Defined.

(** X11 with the default limits: at the balanced set point the reward of
    the measurement [(10, -5, -5)] is 0. *)
Lemma perfect_tracking_reward_is_zero_witness :
  rew_fun inverse_park (default_env 1000) (fin3 10 (-5) (-5))
          (V3 (Fin 10) (Fin 0) (Fin 0)) (Fin 0) = Fin 0.
Proof.
  apply (perfect_tracking_reward_is_zero inverse_park
           (default_env 1000) 20 30 10 (-5) (-5)
           (V3 (Fin 10) (Fin 0) (Fin 0)) (Fin 0)).
  - reflexivity.
  - reflexivity.
  - lra.
  - unfold int64_range. cbn [default_env init max_episode_steps]. lia.
  - exact inverse_park_at_zero.
  - apply Rabs_of_nonneg_le; lra.
  - apply Rabs_of_nonpos_le; lra.
  - apply Rabs_of_nonpos_le; lra.
Defined.

(** X12 with the default limits and a phase current of 25: the reward
    for 1000 steps per episode is not above the reward for one. *)
Lemma reward_not_higher_for_more_steps_witness :
  np_le (rew_fun inverse_park (with_steps 1000 (default_env 7))
                 (fin3 25 0 0) (V3 (Fin 10) (Fin 0) (Fin 0)) (Fin 0))
        (rew_fun inverse_park (with_steps 1 (default_env 7))
                 (fin3 25 0 0) (V3 (Fin 10) (Fin 0) (Fin 0)) (Fin 0)).
Proof.
  destruct (reward_not_higher_for_more_steps inverse_park
              (default_env 7) 20 30 10 (-5) (-5) 25 0 0
              (V3 (Fin 10) (Fin 0) (Fin 0)) (Fin 0) 1 1000)
    as [Hle _].
  - reflexivity.
  - reflexivity.
  - lra.
  - exact inverse_park_at_zero.
  - rewrite Rabs_pos_eq; lra.
  - rewrite Rabs_R0; lra.
  - rewrite Rabs_R0; lra.
  - lia.
  - unfold int64_range. lia.
  - unfold int64_range. lia.
  - exact Hle.
Defined.

(** X13 on an unreachable host in the middle of an episode: the next
    [step] is the one the episode would have taken anyway. *)
Lemma failed_reset_invisible_to_step_witness :
  snd (step inverse_park
         (fst (reset float_of_literal remote_unreachable (Fin 1) (Fin 2)
                     (scenario_world 3 3))))
  = snd (step inverse_park (scenario_world 3 3)).
Proof.
  apply (failed_reset_invisible_to_step float_of_literal inverse_park
           remote_unreachable (Fin 1) (Fin 2) (scenario_world 3 3)
           SSHException).
  reflexivity.
Defined.
